(** * A JSON-RPC 2.0 protocol layer, dispatcher and request handler

    Shallow embedding of [rpc.py] and [jsonrpc.py] (Python 2).

    - Python values are the trees the serializer moves over the wire, plus
      the distinctions the interpreter keeps: tuples and lists, and the two
      kinds of text.  A [str] is a string of bytes and a [unicode] a string
      of code points, the latter limited to code points below 256; numbers
      are integers (floating point is left out).
    - A dictionary maps the text of its keys to values and records the
      kind of its keys: [str] in the dictionaries the code writes, and as
      the keywords of a call are, [unicode] in those [json] reads.  A
      dictionary with keys of both kinds is left out.
    - A raising computation is a value of [exn + A]; [inl e] is [raise e].
    - The module-level table [ERRORS] of [jsonrpc.py] holds mutable
      dictionaries that [marshall_error] hands out by reference: the table
      maps a class to a location, and a store maps locations to the
      dictionaries' current contents.
    - The [json] module of the standard library is taken as a parameter of
      [jsonrpc]; [Module json] gives one instance of it for the closed
      examples. *)

From Stdlib Require Import ZArith String Ascii.
From Stdlib Require QArith_base.
From stdpp Require Import base option list gmap strings pretty.

#[local] Set Warnings "-register-all".
#[local] Open Scope string_scope.

(** ** Python values *)

(** The two kinds of text: [str] and [unicode]. *)
Inductive kind : Set := KStr | KUnicode.

Inductive value : Type :=
  | VNone
  | VBool (b : bool)
  | VInt (z : Z)
  | VStr (s : string)
  | VUnicode (s : string)
  | VList (l : list value)
  | VTuple (l : list value)
  | VDict (keys : kind) (m : gmap string value).

(** The text of the given kind *)
Definition of_kind (keys : kind) (s : string) : value :=
  match keys with
  | KStr => VStr s
  | KUnicode => VUnicode s
  end.

Abbreviation dict := (gmap string value).
Abbreviation bytes := string (only parsing).

(** ** Exception classes

    The classes of [rpc.py] (lines 6-36) and the built-in ones the code can
    meet.  [StandardError], [LookupError] and [UnicodeError] sit between
    these classes; they are not named by the code and are skipped in
    [base].  [SocketError] is [socket.error]. *)

Inductive pyclass : Set :=
  | BaseException | KeyboardInterrupt | Exception
  | TypeError | ValueError | UnicodeEncodeError | UnicodeDecodeError
  | KeyError | NameError | SocketError
  | Error
  | ParseError | InvalidRequestError | MethodNotFoundError
  | InvalidParamsError | InvalidResponseError | ProtocolError
  | InternalError.

#[global] Instance pyclass_eq_dec : EqDecision pyclass.
Proof. solve_decision. Defined.

Definition pyclass_index (c : pyclass) : nat :=
  match c with
  | BaseException => 0 | KeyboardInterrupt => 1 | Exception => 2
  | TypeError => 3 | ValueError => 4 | KeyError => 5 | NameError => 6
  | SocketError => 7 | Error => 8 | ParseError => 9
  | InvalidRequestError => 10 | MethodNotFoundError => 11
  | InvalidParamsError => 12 | InvalidResponseError => 13
  | ProtocolError => 14 | InternalError => 15
  | UnicodeEncodeError => 16 | UnicodeDecodeError => 17
  end.

Definition pyclass_of_index (n : nat) : pyclass :=
  match n with
  | 0 => BaseException | 1 => KeyboardInterrupt | 2 => Exception
  | 3 => TypeError | 4 => ValueError | 5 => KeyError | 6 => NameError
  | 7 => SocketError | 8 => Error | 9 => ParseError
  | 10 => InvalidRequestError | 11 => MethodNotFoundError
  | 12 => InvalidParamsError | 13 => InvalidResponseError
  | 14 => ProtocolError | 15 => InternalError
  | 16 => UnicodeEncodeError | _ => UnicodeDecodeError
  end.

#[global] Instance pyclass_countable : Countable pyclass.
Proof.
  apply (inj_countable' pyclass_index pyclass_of_index).
  intros []; reflexivity.
Defined.

Definition base (c : pyclass) : option pyclass :=
  match c with
  | BaseException => None
  | KeyboardInterrupt | Exception => Some BaseException
  | TypeError | ValueError | KeyError | NameError | SocketError | Error =>
      Some Exception
  | UnicodeEncodeError | UnicodeDecodeError => Some ValueError
  | ParseError | InvalidRequestError | MethodNotFoundError
  | InvalidParamsError | InvalidResponseError | ProtocolError
  | InternalError => Some Error
  end.

(** The class and its ancestors; no class has more than three. *)
Definition mro (c : pyclass) : list pyclass :=
  c :: match base c with
       | None => []
       | Some b1 =>
           b1 :: match base b1 with
                 | None => []
                 | Some b2 => b2 :: from_option (λ b3, [b3]) [] (base b2)
                 end
       end.

Definition issubclass (c d : pyclass) : bool := bool_decide (d ∈ mro c).

Record exn : Type := Exn { exn_type : pyclass; exn_args : list value }.

(** [isinstance(e, d)] *)
Definition isinstance (e : exn) (d : pyclass) : bool :=
  issubclass (exn_type e) d.

(** ** Raising computations *)

Abbreviation res := (sum exn).

#[global] Instance res_ret : MRet res := λ _ x, inr x.
#[global] Instance res_bind : MBind res := λ _ _ f m,
  match m with
  | inl e => inl e
  | inr x => f x
  end.

#[global] Instance res_fmap : FMap res := λ _ _ f m,
  match m with
  | inl e => inl e
  | inr x => inr (f x)
  end.

Definition raise {A} (c : pyclass) (msg : string) : res A :=
  inl (Exn c [VStr msg]).

(** ** [repr] and [str] *)

Definition dq : ascii := ascii_of_nat 34.
Definition sq : ascii := ascii_of_nat 39.
Definition backslash : ascii := ascii_of_nat 92.

Definition char (c : ascii) : string := String c EmptyString.

(** The text between double quotes, as in ['No "id" member'] *)
Definition quoted (s : string) : string := String dq (s +:+ char dq).

Definition contains_char (c : ascii) (s : string) : bool :=
  existsb (Ascii.eqb c) (list_ascii_of_string s).

(** [repr] of a string prefers single quotes and switches to double quotes
    when the text has a single quote and no double quote. *)
Definition repr_quote (s : string) : ascii :=
  if contains_char sq s && negb (contains_char dq s) then dq else sq.

Definition hex_digit (n : N) : ascii :=
  nth (N.to_nat n) (list_ascii_of_string "0123456789abcdef") "0"%char.

Definition needs_escape (quote c : ascii) : bool :=
  Ascii.eqb c quote || Ascii.eqb c backslash
  || (N_of_ascii c <? 32)%N || (127 <=? N_of_ascii c)%N.

Definition repr_char (quote c : ascii) : string :=
  let n := N_of_ascii c in
  if Ascii.eqb c quote || Ascii.eqb c backslash then String backslash (char c)
  else if (n =? 9)%N then "\t"
  else if (n =? 10)%N then "\n"
  else if (n =? 13)%N then "\r"
  else if (n <? 32)%N || (127 <=? n)%N then
    "\x" +:+ String (hex_digit (n / 16)) (char (hex_digit (n mod 16)))
  else char c.

Fixpoint repr_chars (quote : ascii) (s : string) : string :=
  match s with
  | EmptyString => EmptyString
  | String c s' => repr_char quote c +:+ repr_chars quote s'
  end.

Definition str_repr (s : string) : string :=
  let q := repr_quote s in String q (repr_chars q s +:+ char q).

(** Integers outside the machine word are [long] and print with an [L]
    (a 64-bit build: [sys.maxint = 2**63 - 1]). *)
Definition is_long (z : Z) : bool :=
  ((z <? - 2 ^ 63) || (2 ^ 63 - 1 <? z))%Z.

Definition join (sep : string) (l : list string) : string :=
  String.concat sep l.

(** [repr] of text of either kind *)
Definition key_repr (keys : kind) (s : string) : string :=
  match keys with
  | KStr => str_repr s
  | KUnicode => "u" +:+ str_repr s
  end.

Fixpoint py_repr (v : value) : string :=
  match v with
  | VNone => "None"
  | VBool b => if b then "True" else "False"
  | VInt z => pretty z +:+ (if is_long z then "L" else EmptyString)
  | VStr s => str_repr s
  | VUnicode s => key_repr KUnicode s
  | VList l => "[" +:+ join ", " (map py_repr l) +:+ "]"
  | VTuple l =>
      match l with
      | [x] => "(" +:+ py_repr x +:+ ",)"
      | _ => "(" +:+ join ", " (map py_repr l) +:+ ")"
      end
  | VDict keys m =>
      "{" +:+ join ", "
                (map_fold (λ k x acc,
                             (key_repr keys k +:+ ": " +:+ py_repr x) :: acc)
                          [] m)
          +:+ "}"
  end.

(** The characters of [str(v)] and of [unicode(v)]: the text itself for
    text, the decimal digits for a number, [repr] for the rest. *)
Definition text_of (v : value) : string :=
  match v with
  | VStr s | VUnicode s => s
  | VInt z => pretty z
  | _ => py_repr v
  end.

(** ** The default encoding

    Python 2 turns [unicode] into [str] and back with the [ascii] codec
    wherever the two meet; a character or byte above 127 makes that fail. *)

Definition is_ascii_char (c : ascii) : bool := (N_of_ascii c <? 128)%N.

Definition is_ascii (s : string) : bool :=
  forallb is_ascii_char (list_ascii_of_string s).
Arguments is_ascii : simpl never.

(** The position of the first character above 127, and the number of such
    characters at the front of a string. *)
Fixpoint first_above (s : string) : nat :=
  match s with
  | String c s' => if is_ascii_char c then S (first_above s') else 0
  | EmptyString => 0
  end.

Fixpoint run_above (s : string) : nat :=
  match s with
  | String c s' => if is_ascii_char c then 0 else S (run_above s')
  | EmptyString => 0
  end.

Fixpoint string_drop (n : nat) (s : string) : string :=
  match n, s with
  | S n, String _ s' => string_drop n s'
  | _, _ => s
  end.

(** The exception of [u.encode('ascii')]: it names the whole run of
    characters that cannot be encoded. *)
Definition encode_error (s : string) : exn :=
  let start := first_above s in
  Exn UnicodeEncodeError
    [VStr "ascii"; VUnicode s; VInt (Z.of_nat start);
     VInt (Z.of_nat (start + run_above (string_drop start s)));
     VStr "ordinal not in range(128)"].

(** The exception of [s.decode('ascii')]: it names the first byte that
    cannot be decoded. *)
Definition decode_error (s : string) : exn :=
  let start := first_above s in
  Exn UnicodeDecodeError
    [VStr "ascii"; VStr s; VInt (Z.of_nat start); VInt (Z.of_nat (start + 1));
     VStr "ordinal not in range(128)"].

(** [str(v)] *)
Definition py_str (v : value) : res string :=
  match v with
  | VUnicode s => if is_ascii s then inr s else inl (encode_error s)
  | _ => inr (text_of v)
  end.

(** ** Formatting with [%]

    A format string with [%s] directives is a list of pieces: the text
    between the directives and the arguments that go in their place. *)
Inductive piece : Type :=
  | Lit (s : string)
  | Arg (v : value).

(** What [%s] puts in for a piece once the result is [unicode]: a [str]
    argument is decoded. *)
Definition unicode_piece (p : piece) : res string :=
  match p with
  | Lit s => inr s
  | Arg (VStr s) => if is_ascii s then inr s else inl (decode_error s)
  | Arg v => inr (text_of v)
  end.

Fixpoint format_unicode (ps : list piece) : res string :=
  match ps with
  | [] => inr EmptyString
  | p :: ps => s ← unicode_piece p; t ← format_unicode ps; mret (s +:+ t)
  end.

(** [format % args], where [made] is the [str] made so far.  At the first
    [unicode] argument the rest is formatted as [unicode], and what was
    made so far is decoded and put in front of it. *)
Fixpoint format_from (made : string) (ps : list piece) : res value :=
  match ps with
  | [] => inr (VStr made)
  | Lit s :: ps => format_from (made +:+ s) ps
  | Arg (VUnicode _) :: _ =>
      rest ← format_unicode ps;
      if is_ascii made then inr (VUnicode (made +:+ rest))
      else inl (decode_error made)
  | Arg v :: ps => format_from (made +:+ text_of v) ps
  end.

Definition py_format (ps : list piece) : res value :=
  format_from EmptyString ps.

(** ** [str] of an exception *)

(** [%.400s] *)
Definition clip (s : string) : string := String.substring 0 400 s.

Definition hex2 (c : ascii) : string :=
  let n := N_of_ascii c in
  String (hex_digit (n / 16)) (char (hex_digit (n mod 16))).

(** [UnicodeEncodeError.__str__] and [UnicodeDecodeError.__str__] *)
Definition unicode_error_text (encoding : bool) (codec object : string)
    (start stop : Z) (reason : string) : string :=
  let at_start :=
    if ((0 <=? start) && (stop =? start + 1))%Z
    then String.get (Z.to_nat start) object else None in
  "'" +:+ clip codec +:+ "' codec can't "
  +:+ match at_start with
      | Some c =>
          (if encoding then "encode character u'\x" +:+ hex2 c +:+ "'"
           else "decode byte 0x" +:+ hex2 c)
          +:+ " in position " +:+ pretty start
      | None =>
          (if encoding then "encode characters" else "decode bytes")
          +:+ " in position " +:+ pretty start +:+ "-" +:+ pretty (stop - 1)%Z
      end
  +:+ ": " +:+ clip reason.

(** [BaseException.__str__]: the empty string without arguments, [str] of
    the only argument, [str] of the argument tuple otherwise. *)
Definition args_str (args : list value) : res string :=
  match args with
  | [] => inr EmptyString
  | [a] => py_str a
  | _ => inr (py_repr (VTuple args))
  end.

(** [str(e)].  [KeyError] shows its only argument with [repr];
    [socket.error], an [EnvironmentError], shows its two arguments as
    [[Errno n] text]; the two [UnicodeError]s have a text of their own. *)
Definition exn_str (e : exn) : res string :=
  match exn_type e, exn_args e with
  | KeyError, [a] => inr (py_repr a)
  | SocketError, [errno; strerror] =>
      text ← py_format [Lit "[Errno "; Arg errno; Lit "] "; Arg strerror];
      py_str text
  | UnicodeEncodeError,
    [VStr codec; VUnicode object; VInt start; VInt stop; VStr reason] =>
      inr (unicode_error_text true codec object start stop reason)
  | UnicodeDecodeError,
    [VStr codec; VStr object; VInt start; VInt stop; VStr reason] =>
      inr (unicode_error_text false codec object start stop reason)
  | _, args => args_str args
  end.

(** ** Operations of the interpreter used by the code *)

(** Truth value of a dictionary: it is non-empty. *)
Definition dict_truth (d : dict) : bool := negb (Nat.eqb (size d) 0).

(** The [TypeError] of [v[key]] when [v] is not a dictionary and [key] is a
    string. *)
Definition getitem_type_error (v : value) : exn :=
  Exn TypeError
    [VStr match v with
          | VNone => "'NoneType' object has no attribute '__getitem__'"
          | VBool _ => "'bool' object has no attribute '__getitem__'"
          | VInt z =>
              if is_long z then "'long' object has no attribute '__getitem__'"
              else "'int' object has no attribute '__getitem__'"
          | VStr _ => "string indices must be integers, not str"
          | VUnicode _ => "string indices must be integers"
          | VList _ => "list indices must be integers, not str"
          | VTuple _ => "tuple indices must be integers, not str"
          | VDict _ _ => EmptyString
          end].

(** [v[key]] for a string [key] *)
Definition getitem (v : value) (key : string) : res value :=
  match v with
  | VDict _ m =>
      match m !! key with
      | Some x => inr x
      | None => inl (Exn KeyError [VStr key])
      end
  | _ => inl (getitem_type_error v)
  end.

(** [v == s] for an ASCII string literal [s] *)
Definition str_eq (v : value) (s : string) : bool :=
  match v with
  | VStr t | VUnicode t => String.eqb t s
  | _ => false
  end.

(** The characters of a text value. *)
Definition as_text (v : value) : option string :=
  match v with
  | VStr s | VUnicode s => Some s
  | _ => None
  end.

(** [raise x] where [x] is an exception instance or [None] *)
Definition py_raise {A} (x : option exn) : res A :=
  match x with
  | Some e => inl e
  | None =>
      raise TypeError
        "exceptions must be old-style classes or derived from BaseException, not NoneType"
  end.

(** * [rpc.py] *)

Module rpc.

(** The names bound at the top level of [rpc.py]: its imports (lines 1-3)
    and its classes. *)
Definition module_globals : list string :=
  [ "__builtins__"; "__doc__"; "__file__"; "__name__"; "__package__";
    "SocketServer"; "open_socket"; "socket_read";
    "Error"; "ParseError"; "InvalidRequestError"; "MethodNotFoundError";
    "InvalidParamsError"; "InvalidResponseError"; "ProtocolError";
    "InternalError"; "Serializer"; "Protocol"; "Dispatcher";
    "TCPRequestHandler"; "TCPServer"; "Transport"; "TCPSocketTransport";
    "_FunctionProxy"; "ServerProxy"; "TCPServerProxy" ].

(** Evaluating a global name inside [rpc.py]: no built-in is called
    [rpc], so a name outside [module_globals] is a [NameError]. *)
Definition global_name (name : string) : res unit :=
  if bool_decide (name ∈ module_globals) then inr ()
  else raise NameError ("global name '" +:+ name +:+ "' is not defined").

(** class Serializer (lines 39-48): the interface *)
Record Serializer : Type := {
  encode : value → res bytes;
  decode : bytes → res value;
}.

(** class Protocol (lines 51-78): the interface.  [σ] is the state a
    protocol's methods may update. *)
Record Protocol (σ : Type) : Type := {
  marshall_request : string → list value → dict → res bytes;
  unmarshall_request : bytes → res (dict * string * value * dict);
  marshall_response :
    option dict → value → option exn → σ → res (option bytes) * σ;
  unmarshall_response : bytes → res (dict * value);
}.
Arguments marshall_request {σ}.
Arguments unmarshall_request {σ}.
Arguments marshall_response {σ}.
Arguments unmarshall_response {σ}.

(** A registered function: its [__name__] and what a call does. *)
Record function : Type := {
  fn_name : string;
  fn_call : list value → dict → res value;
}.

(** class Dispatcher (lines 81-103) *)
Record Dispatcher : Type := { funcs : gmap string function }.

Definition Dispatcher_init : Dispatcher := {| funcs := ∅ |}.

(** [self.funcs[name or function.__name__] = function] *)
Definition register_function (self : Dispatcher) (f : function)
    (name : option string) : Dispatcher :=
  let key :=
    match name with
    | Some (String c n) => String c n
    | Some EmptyString | None => fn_name f
    end in
  {| funcs := <[key := f]> (funcs self) |}.

Definition dispatch (self : Dispatcher) (method : string)
    (args : list value) (kwargs : dict) : res value :=
  match funcs self !! method with
  | None =>
      (* except KeyError: raise rpc.MethodNotFoundError(method) *)
      _ ← global_name "rpc";
      inl (Exn MethodNotFoundError [VStr method])
  | Some func =>
      match fn_call func args kwargs with
      | inr v => inr v
      | inl e =>
          if isinstance e TypeError then
            text ← exn_str e; raise InvalidParamsError text
          else if isinstance e Exception then
            text ← exn_str e; raise InternalError text
          else inl e
      end
  end.

(** [*args] at a call site: the items of the iterable. *)
Definition star_args (args : value) : res (list value) :=
  match args with
  | VList l | VTuple l => inr l
  | VStr s => inr ((λ c, VStr (char c)) <$> list_ascii_of_string s)
  | VUnicode s => inr ((λ c, VUnicode (char c)) <$> list_ascii_of_string s)
  | VDict keys m => inr ((λ kv, of_kind keys kv.1) <$> map_to_list m)
  | VNone =>
      raise TypeError
        "dispatch() argument after * must be a sequence, not NoneType"
  | VBool _ =>
      raise TypeError
        "dispatch() argument after * must be a sequence, not bool"
  | VInt z =>
      raise TypeError
        (if is_long z
         then "dispatch() argument after * must be a sequence, not long"
         else "dispatch() argument after * must be a sequence, not int")
  end.

(** The call [dispatcher.dispatch(method, *args, **kwargs)] of line 114:
    the arguments are unpacked and bound to the parameters
    [(self, method, *args, **kwargs)] before the body runs; a keyword
    named like a bound parameter is refused. *)
Definition call_dispatch (self : Dispatcher) (method : string)
    (args : value) (kwargs : dict) : res value :=
  positional ← star_args args;
  if bool_decide (is_Some (kwargs !! "self")) then
    raise TypeError
      "dispatch() got multiple values for keyword argument 'self'"
  else if bool_decide (is_Some (kwargs !! "method")) then
    raise TypeError
      "dispatch() got multiple values for keyword argument 'method'"
  else dispatch self method positional kwargs.

(** class TCPServer (lines 126-135): what the handler reaches through
    [self.server]. *)
Record TCPServer (σ : Type) : Type := {
  protocol : Protocol σ;
  dispatcher : Dispatcher;
}.
Arguments protocol {σ}.
Arguments dispatcher {σ}.

(** What one run of the handler does to the connection. *)
Inductive outcome : Type :=
  | Sent (response : bytes)
  | Silent
  | Aborted (e : exn).

(** Lines 118-123: marshal, and send a response that is true. *)
Definition respond {σ} (r : res (option bytes) * σ) : outcome * σ :=
  match r.1 with
  | inl e => (Aborted e, r.2)
  | inr None | inr (Some EmptyString) => (Silent, r.2)
  | inr (Some response) => (Sent response, r.2)
  end.

(** TCPRequestHandler.handle (lines 108-123).  [read] is the result of
    [socket_read(self.request)]. *)
Definition handle {σ} (server : TCPServer σ) (read : res bytes) (s : σ)
    : outcome * σ :=
  match read with
  | inl e => (Aborted e, s)
  | inr data =>
      match unmarshall_request (protocol server) data with
      | inl e =>
          if isinstance e Error
          then respond (marshall_response (protocol server)
                          None VNone (Some e) s)
          else (Aborted e, s)
      | inr (request, method, args, kwargs) =>
          match call_dispatch (dispatcher server) method args kwargs with
          | inl e =>
              if isinstance e Error
              then respond (marshall_response (protocol server)
                              (Some request) VNone (Some e) s)
              else (Aborted e, s)
          | inr result =>
              respond (marshall_response (protocol server)
                         (Some request) result None s)
          end
      end
  end.

End rpc.

(** * [jsonrpc.py] *)

Module jsonrpc.

(** The inner dictionaries of [ERRORS] are objects: [loc] names them and
    a [store] holds their contents. *)
Abbreviation loc := nat (only parsing).
Abbreviation store := (gmap nat (gmap string value)).

(** ERRORS (lines 6-12): from a class to its dictionary object *)
Definition ERRORS : gmap pyclass loc :=
  {[ ParseError := 0; InvalidRequestError := 1; MethodNotFoundError := 2;
     InvalidParamsError := 3; InternalError := 4 ]}.

(** The contents of those objects when the module has been loaded. *)
Definition ERRORS_loaded : store :=
  {[ 0 := {[ "code" := VInt (-32700); "message" := VStr "Parse Error" ]};
     1 := {[ "code" := VInt (-32600); "message" := VStr "Invalid Request" ]};
     2 := {[ "code" := VInt (-32601); "message" := VStr "Method not found" ]};
     3 := {[ "code" := VInt (-32602); "message" := VStr "Invalid params" ]};
     4 := {[ "code" := VInt (-32603); "message" := VStr "Internal error" ]} ]}.

(** EXCEPTIONS (lines 15-21) *)
Definition EXCEPTIONS : gmap Z pyclass :=
  {[ (-32700)%Z := ParseError; (-32600)%Z := InvalidRequestError;
     (-32601)%Z := MethodNotFoundError; (-32602)%Z := InvalidParamsError;
     (-32603)%Z := InternalError ]}.

(** The type that makes a key unhashable, if any. *)
Fixpoint unhashable (v : value) : option string :=
  match v with
  | VList _ => Some "list"
  | VDict _ _ => Some "dict"
  | VTuple l => foldr (λ x acc, from_option Some acc (unhashable x)) None l
  | VNone | VBool _ | VInt _ | VStr _ | VUnicode _ => None
  end.

(** [EXCEPTIONS[code]]: the keys are integers; [True] and [False] hash
    and compare as [1] and [0]. *)
Definition EXCEPTIONS_getitem (code : value) : res pyclass :=
  match unhashable code with
  | Some t => raise TypeError ("unhashable type: '" +:+ t +:+ "'")
  | None =>
      let found :=
        match code with
        | VInt z => EXCEPTIONS !! z
        | VBool b => EXCEPTIONS !! Z.b2z b
        | _ => None
        end in
      match found with
      | Some c => inr c
      | None => inl (Exn KeyError [code])
      end
  end.

(** The object a reference stands for, as a value; [None] stays [None]. *)
Definition deref (h : store) (r : option loc) : value :=
  match r with
  | Some l => VDict KStr (default ∅ (h !! l))
  | None => VNone
  end.

(** [exc.args or None] *)
Definition args_or_None (args : list value) : value :=
  match args with
  | [] => VNone
  | _ => VTuple args
  end.

(** marshall_error (lines 139-145): returns the table's own object. *)
Definition marshall_error (exc : exn) (h : store) : option loc * store :=
  match ERRORS !! exn_type exc with
  | Some error =>
      (Some error, alter (insert "data" (args_or_None (exn_args exc))) error h)
  | None => (None, h)
  end.

(** unmarshall_error (lines 147-153) *)
Definition unmarshall_error (error : value) : res (option exn) :=
  let body : res exn :=
    code ← getitem error "code";
    message_ ← getitem error "message";
    data ← getitem error "data";
    message ← py_format [Arg message_; Lit ": "; Arg data];
    cls ← EXCEPTIONS_getitem code;
    mret (Exn cls [message]) in
  match body with
  | inr e => inr (Some e)
  | inl e => if isinstance e KeyError then inr None else inl e
  end.

(** [str(k)] for a key of a dictionary with keys of the given kind *)
Definition str_key (keys : kind) (k : string) : res string :=
  py_str (of_kind keys k).

(** [dict((str(k), v) for k, v in kwargs.items())]: the items are taken
    in turn, the first key that [str] refuses ends it, and later items
    win. *)
Definition dict_of_items (keys : kind) (items : list (string * value))
    : res dict :=
  foldl (λ acc kv, d ← acc; k ← str_key keys kv.1; mret (<[k := kv.2]> d))
        (inr ∅) items.

(** Truth value of the tuple [args] *)
Definition has_items (args : list value) : bool :=
  negb (Nat.eqb (length args) 0).

(** The dictionary [req] that lines 49-60 of marshall_request build when
    they do not raise. *)
Definition request_members (method : string) (args : list value)
    (kwargs : dict) : dict :=
  let req : dict := {[ "jsonrpc" := VStr "2.0"; "method" := VStr method ]} in
  let req :=
    if has_items args || dict_truth kwargs
    then <["params" := if has_items args then VTuple args else VDict KStr kwargs]> req
    else req in
  <["id" := VInt 0]> req.

Section protocol.
(** [json.dumps] and [json.loads] *)
Variable json_dumps : value → res bytes.
Variable json_loads : bytes → res value.

(** class JSONSerializer (lines 24-37) *)
Definition JSONSerializer : rpc.Serializer := {|
  rpc.encode data :=
    match json_dumps data with
    | inr s => inr s
    | inl e =>
        if isinstance e ValueError then text ← exn_str e; raise ParseError text
        else inl e
    end;
  rpc.decode data :=
    match json_loads data with
    | inr v => inr v
    | inl e =>
        if isinstance e ValueError then text ← exn_str e; raise ParseError text
        else inl e
    end;
|}.

(** [self.serializer], set by [__init__] (lines 43-44) *)
Definition serializer : rpc.Serializer := JSONSerializer.

(** marshall_request (lines 46-63) *)
Definition marshall_request (method : string) (args : list value)
    (kwargs : dict) : res bytes :=
  if has_items args && dict_truth kwargs then
    raise ProtocolError "Cannot use both positional and keyword arguments"
  else rpc.encode serializer (VDict KStr (request_members method args kwargs)).

(** unmarshall_request (lines 65-91).  [request['jsonrpc']] on anything
    but a dictionary is a [TypeError], which no handler of the function
    catches. *)
Definition unmarshall_request (data : bytes)
    : res (dict * string * value * dict) :=
  decoded ← rpc.decode serializer data;
  match decoded with
  | VDict _ request =>
      _ ← match request !! "jsonrpc" with
          | None =>
              raise InvalidRequestError
                ("No " +:+ quoted "jsonrpc" +:+ " member found")
          | Some version =>
              if str_eq version "2.0" then inr ()
              else raise InvalidRequestError "Only JSON-RPC 2.0 is supported"
          end;
      method ← match request !! "method" with
               | None =>
                   raise InvalidRequestError
                     ("No " +:+ quoted "method" +:+ " member found")
               | Some (VStr method) | Some (VUnicode method) => inr method
               | Some _ =>
                   raise InvalidRequestError
                     (quoted "method" +:+ " member must be string")
               end;
      match default (VTuple []) (request !! "params") with
      | VDict keys kwargs =>
          kwargs ← dict_of_items keys (map_to_list kwargs);
          mret (request, method, VTuple [], kwargs)
      | args => mret (request, method, args, ∅)
      end
  | _ => inl (getitem_type_error decoded)
  end.

(** marshall_response (lines 93-111) *)
Definition marshall_response (request : option dict) (result : value)
    (error : option exn) (h : store) : res (option bytes) * store :=
  let truth := from_option dict_truth false request in
  let has_id := from_option (λ r, bool_decide (is_Some (r !! "id"))) false request in
  if truth && negb has_id then (inr None, h)
  else
    let resp : dict := {[ "jsonrpc" := VStr "2.0" ]} in
    let id : res value :=
      match request with
      | Some r => if dict_truth r then getitem (VDict KStr r) "id" else inr VNone
      | None => inr VNone
      end in
    match id with
    | inl e => (inl e, h)
    | inr id =>
        let resp := <["id" := id]> resp in
        match error with
        | Some e =>
            let '(r, h') := marshall_error e h in
            let resp := <["error" := deref h' r]> resp in
            (Some <$> rpc.encode serializer (VDict KStr resp), h')
        | None =>
            let resp := <["result" := result]> resp in
            (Some <$> rpc.encode serializer (VDict KStr resp), h)
        end
    end.

(** unmarshall_response (lines 113-137) *)
Definition unmarshall_response (data : bytes) : res (dict * value) :=
  decoded ← rpc.decode serializer data;
  match decoded with
  | VDict _ response =>
      _ ← match response !! "jsonrpc" with
          | None =>
              raise InvalidResponseError
                ("No " +:+ quoted "jsonrpc" +:+ " member in response")
          | Some version =>
              if str_eq version "2.0" then inr ()
              else raise InvalidResponseError "Only JSON-RPC 2.0 supported"
          end;
      if bool_decide (response !! "id" = None) then
        raise InvalidResponseError
          ("No " +:+ quoted "id" +:+ " member found in response")
      else
        match response !! "error", response !! "result" with
        | Some error, _ => x ← unmarshall_error error; py_raise x
        | None, Some result => mret (response, result)
        | None, None =>
            raise InvalidResponseError
              ("No " +:+ quoted "result" +:+ " or " +:+ quoted "error"
               +:+ " member found in response")
        end
  | _ => inl (getitem_type_error decoded)
  end.

(** class JSONRPCProtocol (line 40) *)
Definition JSONRPCProtocol : rpc.Protocol store := {|
  rpc.marshall_request := marshall_request;
  rpc.unmarshall_request := unmarshall_request;
  rpc.marshall_response := marshall_response;
  rpc.unmarshall_response := unmarshall_response;
|}.

(** class TCPServer (lines 156-159), with its dispatcher *)
Definition TCPServer (d : rpc.Dispatcher) : rpc.TCPServer store :=
  {| rpc.protocol := JSONRPCProtocol; rpc.dispatcher := d |}.

End protocol.

End jsonrpc.

(** * An instance of the [json] module

    [dumps] writes the text [json.dumps] writes for the values above, with
    the members of an object in the order the map enumerates them (Python
    leaves that order open).  [loads] reads JSON text with integer numbers
    and gives text as [unicode].  The bytes of a [str] and of the input are
    ASCII: a byte above 127 is refused by both, as [json] refuses bytes
    that are not UTF-8; a [unicode] character above 127 is written and read
    as a [\u] escape, up to the code point 255. *)

Module json.

Definition hex4 (n : N) : string :=
  "00" +:+ String (hex_digit (n / 16)) (char (hex_digit (n mod 16))).

Definition is_unicode (keys : kind) : bool :=
  match keys with
  | KUnicode => true
  | KStr => false
  end.

(** [wide] tells a [unicode] character from a byte of a [str]. *)
Definition escape_char (wide : bool) (c : ascii) : option string :=
  let n := N_of_ascii c in
  if Ascii.eqb c dq || Ascii.eqb c backslash then Some (String backslash (char c))
  else if (n =? 8)%N then Some "\b"
  else if (n =? 9)%N then Some "\t"
  else if (n =? 10)%N then Some "\n"
  else if (n =? 12)%N then Some "\f"
  else if (n =? 13)%N then Some "\r"
  else if (n <? 32)%N || (n =? 127)%N then Some ("\u" +:+ hex4 n)
  else if (127 <? n)%N then
    if wide then Some ("\u" +:+ hex4 n) else None
  else Some (char c).

Fixpoint escape_chars (wide : bool) (s : string) : option string :=
  match s with
  | EmptyString => Some EmptyString
  | String c s' =>
      e ← escape_char wide c; r ← escape_chars wide s'; Some (e +:+ r)
  end.

Definition dumps_str (wide : bool) (s : string) : option string :=
  quoted <$> escape_chars wide s.

Fixpoint dumps_text (v : value) : option string :=
  match v with
  | VNone => Some "null"
  | VBool b => Some (if b then "true" else "false")
  | VInt z => Some (pretty z)
  | VStr s => dumps_str false s
  | VUnicode s => dumps_str true s
  | VList l | VTuple l =>
      items ← foldr (λ x acc, t ← dumps_text x; r ← acc; Some (t :: r))
                    (Some []) l;
      Some ("[" +:+ join ", " items +:+ "]")
  | VDict keys m =>
      items ← map_fold (λ k x acc,
                          key ← dumps_str (is_unicode keys) k;
                          t ← dumps_text x; r ← acc;
                          Some ((key +:+ ": " +:+ t) :: r))
                       (Some []) m;
      Some ("{" +:+ join ", " items +:+ "}")
  end.

Definition dumps (v : value) : res bytes :=
  match dumps_text v with
  | Some s => inr s
  | None => raise ValueError "'utf8' codec can't decode byte"
  end.

Definition is_space (c : ascii) : bool :=
  let n := N_of_ascii c in
  (n =? 32)%N || (n =? 9)%N || (n =? 10)%N || (n =? 13)%N.

Fixpoint skip_space (s : string) : string :=
  match s with
  | String c s' => if is_space c then skip_space s' else s
  | EmptyString => s
  end.

Definition digit (c : ascii) : option Z :=
  let n := N_of_ascii c in
  if (48 <=? n)%N && (n <=? 57)%N then Some (Z.of_N n - 48)%Z else None.

Definition hex_value (c : ascii) : option N :=
  let n := N_of_ascii c in
  if (48 <=? n)%N && (n <=? 57)%N then Some (n - 48)%N
  else if (97 <=? n)%N && (n <=? 102)%N then Some (n - 87)%N
  else if (65 <=? n)%N && (n <=? 70)%N then Some (n - 55)%N
  else None.

(** The digits at the front of [s], most significant first. *)
Fixpoint digits (acc : Z) (s : string) : Z * string :=
  match s with
  | String c s' =>
      match digit c with
      | Some d => digits (10 * acc + d) s'
      | None => (acc, s)
      end
  | EmptyString => (acc, s)
  end.

(** A number has no fraction and no exponent here. *)
Definition no_float (s : string) : bool :=
  match s with
  | String c _ =>
      negb (Ascii.eqb c "."%char || Ascii.eqb c "e"%char
            || Ascii.eqb c "E"%char)
  | EmptyString => true
  end.

Definition natural (s : string) : option (Z * string) :=
  match s with
  | String c s' =>
      d ← digit c;
      let '(n, rest) := if (d =? 0)%Z then (0%Z, s') else digits d s' in
      if no_float rest then Some (n, rest) else None
  | EmptyString => None
  end.

Definition escaped (c : ascii) : option ascii :=
  if Ascii.eqb c dq || Ascii.eqb c backslash || Ascii.eqb c "/"%char
  then Some c
  else if Ascii.eqb c "b"%char then Some (ascii_of_nat 8)
  else if Ascii.eqb c "f"%char then Some (ascii_of_nat 12)
  else if Ascii.eqb c "n"%char then Some (ascii_of_nat 10)
  else if Ascii.eqb c "r"%char then Some (ascii_of_nat 13)
  else if Ascii.eqb c "t"%char then Some (ascii_of_nat 9)
  else None.

(** The text of a string literal after its opening quote, and what
    follows the closing quote. *)
Fixpoint text (s : string) : option (string * string) :=
  match s with
  | EmptyString => None
  | String c s' =>
      if Ascii.eqb c dq then Some (EmptyString, s')
      else if Ascii.eqb c backslash then
        match s' with
        | String "u" (String h1 (String h2 (String h3 (String h4 s'')))) =>
            a ← hex_value h1; b ← hex_value h2;
            c ← hex_value h3; d ← hex_value h4;
            let n := (((a * 16 + b) * 16 + c) * 16 + d)%N in
            if (n <? 256)%N
            then '(t, rest) ← text s''; Some (String (ascii_of_N n) t, rest)
            else None
        | String e s'' =>
            x ← escaped e; '(t, rest) ← text s''; Some (String x t, rest)
        | EmptyString => None
        end
      else if (N_of_ascii c <? 32)%N || (127 <? N_of_ascii c)%N then None
      else '(t, rest) ← text s'; Some (String c t, rest)
  end.

Fixpoint parse_value (fuel : nat) (s : string) : option (value * string) :=
  match fuel with
  | 0 => None
  | S fuel =>
      match skip_space s with
      | String "n" (String "u" (String "l" (String "l" rest))) =>
          Some (VNone, rest)
      | String "t" (String "r" (String "u" (String "e" rest))) =>
          Some (VBool true, rest)
      | String "f" (String "a" (String "l" (String "s" (String "e" rest)))) =>
          Some (VBool false, rest)
      | String "-" rest => '(n, rest) ← natural rest; Some (VInt (- n), rest)
      | String "[" rest =>
          match skip_space rest with
          | String "]" rest => Some (VList [], rest)
          | rest => parse_array fuel [] rest
          end
      | String "{" rest =>
          match skip_space rest with
          | String "}" rest => Some (VDict KUnicode ∅, rest)
          | rest => parse_object fuel ∅ rest
          end
      | String c rest =>
          if Ascii.eqb c dq then '(t, rest) ← text rest; Some (VUnicode t, rest)
          else '(n, rest) ← natural (String c rest); Some (VInt n, rest)
      | EmptyString => None
      end
  end
with parse_array (fuel : nat) (acc : list value) (s : string)
    : option (value * string) :=
  match fuel with
  | 0 => None
  | S fuel =>
      '(v, rest) ← parse_value fuel s;
      match skip_space rest with
      | String "," rest => parse_array fuel (v :: acc) rest
      | String "]" rest => Some (VList (reverse (v :: acc)), rest)
      | _ => None
      end
  end
with parse_object (fuel : nat) (acc : dict) (s : string)
    : option (value * string) :=
  match fuel with
  | 0 => None
  | S fuel =>
      match skip_space s with
      | String c rest =>
          if Ascii.eqb c dq then
            '(key, rest) ← text rest;
            match skip_space rest with
            | String ":" rest =>
                '(v, rest) ← parse_value fuel rest;
                match skip_space rest with
                | String "," rest => parse_object fuel (<[key := v]> acc) rest
                | String "}" rest =>
                    Some (VDict KUnicode (<[key := v]> acc), rest)
                | _ => None
                end
            | _ => None
            end
          else None
      | EmptyString => None
      end
  end.

Definition loads (s : bytes) : res value :=
  match parse_value (2 * String.length s + 2) s with
  | Some (v, rest) =>
      match skip_space rest with
      | EmptyString => inr v
      | _ => raise ValueError "Extra data"
      end
  | None => raise ValueError "No JSON object could be decoded"
  end.

End json.

(** The [lambda x, y: x + y] of line 172.  Binding the arguments of a
    call to [x] and [y]: too many positional arguments are refused first,
    then a keyword that names no parameter or one that a positional
    argument has filled, then a parameter left without a value. *)
Definition bind_x_y (args : list value) (kwargs : dict) : res (value * value) :=
  let slot (name : string) : option nat :=
    if String.eqb name "x" then Some 0
    else if String.eqb name "y" then Some 1 else None in
  let refused (kv : string * value) : bool :=
    from_option (λ i, i <? length args)%nat true (slot kv.1) in
  if (2 <? length args)%nat then
    raise TypeError
      ("<lambda>() takes exactly 2 arguments ("
       +:+ pretty (length args + size kwargs)%nat +:+ " given)")
  else
    match List.filter refused (map_to_list kwargs) with
    | (name, _) :: _ =>
        raise TypeError
          (match slot name with
           | Some _ => "<lambda>() got multiple values for keyword argument '"
           | None => "<lambda>() got an unexpected keyword argument '"
           end +:+ name +:+ "'")
    | [] =>
        let x := from_option Some (kwargs !! "x") (args !! 0%nat) in
        let y := from_option Some (kwargs !! "y") (args !! 1%nat) in
        match x, y with
        | Some x, Some y => inr (x, y)
        | _, _ =>
            raise TypeError
              ("<lambda>() takes exactly 2 arguments ("
               +:+ pretty (length (option_list x ++ option_list y))
               +:+ " given)")
        end
    end.

Definition as_number (v : value) : option Z :=
  match v with
  | VInt z => Some z
  | VBool b => Some (Z.b2z b)
  | _ => None
  end.

(** The name of the type of a value *)
Definition type_name (v : value) : string :=
  match v with
  | VNone => "NoneType"
  | VBool _ => "bool"
  | VInt z => if is_long z then "long" else "int"
  | VStr _ => "str"
  | VUnicode _ => "unicode"
  | VList _ => "list"
  | VTuple _ => "tuple"
  | VDict _ _ => "dict"
  end.

(** [x + y]: numbers are added, text and sequences of one kind are
    joined, and a [str] that meets a [unicode] is decoded. *)
Definition py_add (x y : value) : res value :=
  match x, y with
  | VStr a, VStr b => inr (VStr (a +:+ b))
  | VUnicode a, VUnicode b => inr (VUnicode (a +:+ b))
  | VStr a, VUnicode b =>
      if is_ascii a then inr (VUnicode (a +:+ b)) else inl (decode_error a)
  | VUnicode a, VStr b =>
      if is_ascii b then inr (VUnicode (a +:+ b)) else inl (decode_error b)
  | VStr _, _ =>
      raise TypeError
        ("cannot concatenate 'str' and '" +:+ type_name y +:+ "' objects")
  | VUnicode _, _ =>
      raise TypeError
        ("coercing to Unicode: need string or buffer, " +:+ type_name y
         +:+ " found")
  | VList a, VList b => inr (VList (a ++ b))
  | VList _, _ =>
      raise TypeError
        ("can only concatenate list (not " +:+ quoted (type_name y)
         +:+ ") to list")
  | VTuple a, VTuple b => inr (VTuple (a ++ b))
  | VTuple _, _ =>
      raise TypeError
        ("can only concatenate tuple (not " +:+ quoted (type_name y)
         +:+ ") to tuple")
  | _, _ =>
      match as_number x, as_number y with
      | Some a, Some b => inr (VInt (a + b))
      | _, _ =>
          raise TypeError
            ("unsupported operand type(s) for +: '" +:+ type_name x
             +:+ "' and '" +:+ type_name y +:+ "'")
      end
  end.

Definition demo_add : rpc.function :=
  {| rpc.fn_name := "<lambda>";
     rpc.fn_call args kwargs := '(x, y) ← bind_x_y args kwargs; py_add x y |}.

(** A server as the [__main__] block of [jsonrpc.py] sets it up (lines
    168-173), with the [add] function of line 172. *)
Definition demo_server : rpc.TCPServer jsonrpc.store :=
  jsonrpc.TCPServer json.dumps json.loads
    (rpc.register_function rpc.Dispatcher_init demo_add (Some "add")).

(** ** Text containment *)

Fixpoint is_prefix (s t : string) : bool :=
  match s, t with
  | EmptyString, _ => true
  | String a s', String b t' => Ascii.eqb a b && is_prefix s' t'
  | String _ _, EmptyString => false
  end.

Fixpoint is_infix (s t : string) : bool :=
  is_prefix s t
  || match t with
     | EmptyString => false
     | String _ t' => is_infix s t'
     end.

(** ** Reading back what was written

    What [json.loads] gives for the bytes [json.dumps] wrote for a value:
    a tuple has become a list and a [str] of ASCII text the [unicode] of
    that text, at every depth. *)
Fixpoint json_image (v : value) : value :=
  match v with
  | VStr s => VUnicode s
  | VList l | VTuple l => VList (json_image <$> l)
  | VDict _ m => VDict KUnicode (json_image <$> m)
  | VNone | VBool _ | VInt _ | VUnicode _ => v
  end.


(** Equality as [==] has it on such values: the kind of an ASCII text does
    not matter, be it a value or a key. *)
Inductive same_text : value → value → Prop :=
  | same_refl v : same_text v v
  | same_str s : is_ascii s = true → same_text (VUnicode s) (VStr s)
  | same_list l1 l2 :
      Forall2 same_text l1 l2 → same_text (VList l1) (VList l2)
  | same_dict keys1 keys2 m1 m2 :
      (∀ k, option_Forall2 same_text (m1 !! k) (m2 !! k)) →
      (∀ k, is_Some (m1 !! k) → is_ascii k = true) →
      same_text (VDict keys1 m1) (VDict keys2 m2).

(** The positional arguments [unmarshall_request] hands back for [args]. *)
Definition positional (args : list value) : value :=
  match args with
  | [] => VTuple []
  | _ => VList args
  end.

(** ** The state of the [ERRORS] objects

    Every object of the table is still there with the [code] and [message]
    it was loaded with; only [data] comes and goes. *)
Definition table_intact (h : jsonrpc.store) : Prop :=
  ∀ l d0, jsonrpc.ERRORS_loaded !! l = Some d0 →
    ∃ d, h !! l = Some d
         ∧ d !! "code" = d0 !! "code"
         ∧ d !! "message" = d0 !! "message".

(** The [message] the table holds for a class. *)
Definition table_message (c : pyclass) : string :=
  default EmptyString
    (l ← jsonrpc.ERRORS !! c;
     d ← jsonrpc.ERRORS_loaded !! l;
     text_of <$> d !! "message").

(** The codes of [EXCEPTIONS] *)
Definition code_in_table (code : value) : bool :=
  match code with
  | VInt z => bool_decide (is_Some (jsonrpc.EXCEPTIONS !! z))
  | _ => false
  end.

(** No character of [s] is one that [repr] writes with a backslash. *)
Definition repr_plain (s : string) : bool :=
  forallb (λ c, negb (needs_escape (repr_quote s) c)) (list_ascii_of_string s).

(** ** Example messages *)

(** What [json.dumps] writes for a value, for the examples below. *)
Definition written (v : value) : bytes :=
  match json.dumps v with
  | inr s => s
  | inl _ => EmptyString
  end.

(** A response that carries an error with a code of no class. *)
Definition unknown_code_error : dict :=
  {[ "code" := VInt 5; "message" := VUnicode "m"; "data" := VNone ]}.

Definition unknown_code_response : dict :=
  {[ "jsonrpc" := VUnicode "2.0"; "id" := VInt 0;
     "error" := VDict KUnicode unknown_code_error ]}.



(** The same with an error object that has no [data]. *)
Definition not_found_bare : dict :=
  {[ "code" := VInt (-32601); "message" := VUnicode "Method not found" ]}.

Definition bare_error_and_result : dict :=
  {[ "jsonrpc" := VUnicode "2.0"; "id" := VInt 0;
     "error" := VDict KUnicode not_found_bare; "result" := VInt 3 ]}.

(** A notification: a request without [id]. *)
Definition notify_add : dict :=
  {[ "jsonrpc" := VUnicode "2.0"; "method" := VUnicode "add";
     "params" := VList [VInt 2; VInt 3] ]}.

(** * [util.py] *)

Module util.

(** A socket, as far as the code uses one.  [sock_recv] lists what the
    calls of [recv] give in turn, whatever their [bufsize]: a chunk of
    bytes (none when the peer has closed) or an exception.  When the list
    has run out nothing arrives any more and [recv] fails with
    [socket.error]; a call that would wait for ever is not modelled.
    [sock_broken] is what [send] raises, if it raises; [send] writes all
    of its data otherwise.  A timeout is [None] or a number of seconds. *)
Record socket : Type := {
  sock_timeout : option QArith_base.Q;
  sock_recv : list (res bytes);
  sock_broken : option exn;
  sock_sent : list bytes;
  sock_closed : bool;
}.

Definition set_timeout (t : option QArith_base.Q) (sock : socket) : socket :=
  {| sock_timeout := t; sock_recv := sock_recv sock;
     sock_broken := sock_broken sock; sock_sent := sock_sent sock;
     sock_closed := sock_closed sock |}.

Definition set_recv (l : list (res bytes)) (sock : socket) : socket :=
  {| sock_timeout := sock_timeout sock; sock_recv := l;
     sock_broken := sock_broken sock; sock_sent := sock_sent sock;
     sock_closed := sock_closed sock |}.

Definition would_block : exn :=
  Exn SocketError [VInt 11; VStr "Resource temporarily unavailable"].

(** [sock.recv(bufsize)] *)
Definition recv (sock : socket) (bufsize : nat) : res bytes * socket :=
  match sock_recv sock with
  | [] => (inl would_block, sock)
  | r :: rest => (r, set_recv rest sock)
  end.

(** [sock.send(data)] *)
Definition send (sock : socket) (data : bytes) : res unit * socket :=
  match sock_broken sock with
  | Some e => (inl e, sock)
  | None =>
      (inr (),
       {| sock_timeout := sock_timeout sock; sock_recv := sock_recv sock;
          sock_broken := None; sock_sent := sock_sent sock ++ [data];
          sock_closed := sock_closed sock |})
  end.

(** [sock.close()] *)
Definition close (sock : socket) : socket :=
  {| sock_timeout := sock_timeout sock; sock_recv := sock_recv sock;
     sock_broken := sock_broken sock; sock_sent := sock_sent sock;
     sock_closed := true |}.

(** socket_recv (lines 14-22) *)
Definition socket_recv (sock : socket) (bufsize : nat) : res bytes * socket :=
  match recv sock bufsize with
  | (inr EmptyString, sock) => (inl (Exn SocketError []), sock)
  | (inr data, sock) => (inr data, sock)
  | (inl e, sock) => (inl e, sock)
  end.

(** The loop of lines 31-35.  [fuel] bounds the number of rounds; [None]
    is a loop that has not ended within them. *)
Fixpoint drain (fuel : nat) (sock : socket) (bufsize : nat) (data : bytes)
    : option (res bytes * socket) :=
  match fuel with
  | 0 => None
  | S fuel =>
      match socket_recv sock bufsize with
      | (inr more, sock) => drain fuel sock bufsize (data +:+ more)
      | (inl e, sock) =>
          if isinstance e SocketError then Some (inr data, sock)
          else Some (inl e, sock)
      end
  end.

(** socket_read (lines 25-38) *)
Definition socket_read (fuel : nat) (sock : socket) (bufsize : nat)
    : option (res bytes * socket) :=
  match socket_recv sock bufsize with
  | (inl e, sock) => Some (inl e, sock)
  | (inr data, sock) =>
      let timeout := sock_timeout sock in
      let sock := set_timeout (Some (QArith_base.Qmake 0 1)) sock in
      match drain fuel sock bufsize data with
      | None => None
      | Some (inl e, sock) => Some (inl e, sock)
      | Some (inr data, sock) => Some (inr data, set_timeout timeout sock)
      end
  end.

End util.

(** * [rpc.py]: the client *)

Module client.

(** TCPSocketTransport.send_request (lines 149-152) with open_socket of
    [util.py] (lines 5-11).  [connected] is what lines 8-9 of [open_socket]
    give: a connected socket or the exception of [connect].  The second
    component is the socket as the call leaves it.  [open_socket] closes
    the socket after the [yield] only: an exception raised in the body of
    the [with] statement goes through the generator and past
    [sock.close()]. *)
Definition send_request (fuel : nat) (connected : res util.socket)
    (data : bytes) : option (res bytes * option util.socket) :=
  match connected with
  | inl e => Some (inl e, None)
  | inr sock =>
      match util.send sock data with
      | (inl e, sock) => Some (inl e, Some sock)
      | (inr _, sock) =>
          match util.socket_read fuel sock 4096 with
          | None => None
          | Some (inl e, sock) => Some (inl e, Some sock)
          | Some (inr reply, sock) => Some (inr reply, Some (util.close sock))
          end
      end
  end.

(** class Transport (lines 138-144), as [ServerProxy] uses it: [τ] is the
    state of the world a transport works on. *)
Abbreviation Transport τ := (bytes → τ → res bytes * τ).

(** Binding the keywords of a call [f(..., *args, **kwargs)] to a method
    whose parameters in front of [*args] are [names], all filled by
    position: a keyword with one of these names is refused.  (With several
    such keywords Python names the one its dictionary gives first.) *)
Definition bind_keywords (function : string) (names : list string)
    (kwargs : dict) : res unit :=
  match List.filter (λ name, bool_decide (is_Some (kwargs !! name))) names with
  | name :: _ =>
      raise TypeError
        (function +:+ "() got multiple values for keyword argument '"
         +:+ name +:+ "'")
  | [] => inr ()
  end.

(** ServerProxy.__remote_call (lines 174-179).  The call of line 175 binds
    its arguments to the parameters [(self, method, *args, **kwargs)] of
    [marshall_request]. *)
Definition remote_call {σ τ} (protocol : rpc.Protocol σ)
    (transport : Transport τ) (name : string) (args : list value)
    (kwargs : dict) (t : τ) : res value * τ :=
  match _ ← bind_keywords "marshall_request" ["self"; "method"] kwargs;
        rpc.marshall_request protocol name args kwargs with
  | inl e => (inl e, t)
  | inr request =>
      match transport request t with
      | (inl e, t) => (inl e, t)
      | (inr EmptyString, t) => (inr VNone, t)
      | (inr data, t) =>
          (snd <$> rpc.unmarshall_response protocol data, t)
      end
  end.

(** _FunctionProxy.__call__ (lines 161-162), which is what a call
    [proxy.name(...)] runs: the arguments are bound to the
    parameters [(self, *args, **kwargs)] of [__call__] and then, at line
    162, to the parameters [(self, name, *args, **kwargs)] of
    [__remote_call]. *)
Definition FunctionProxy_call {σ τ} (protocol : rpc.Protocol σ)
    (transport : Transport τ) (name : string) (args : list value)
    (kwargs : dict) (t : τ) : res value * τ :=
  match _ ← bind_keywords "__call__" ["self"] kwargs;
        bind_keywords "__remote_call" ["self"; "name"] kwargs with
  | inl e => (inl e, t)
  | inr _ => remote_call protocol transport name args kwargs t
  end.

End client.

(** A proxy and a server in one process, for the examples: the request
    reaches the handler whole and the client reads what the handler sent;
    when the handler sends nothing the connection closes on an empty
    [recv] and [socket_read] raises [socket.error]. *)
Definition in_process (server : rpc.TCPServer jsonrpc.store)
    : client.Transport jsonrpc.store :=
  λ request h,
    match rpc.handle server (inr request) h with
    | (rpc.Sent reply, h) => (inr reply, h)
    | (_, h) => (inl (Exn SocketError []), h)
    end.





(** A socket on which a reply arrives in two chunks before the peer
    closes, with more scripted behind. *)
Definition two_chunks : util.socket :=
  {| util.sock_timeout := None;
     util.sock_recv := [inr "{1: "; inr "2}"; inr EmptyString; inr "late"];
     util.sock_broken := None;
     util.sock_sent := [];
     util.sock_closed := false |}.

(** ** Reading from a socket *)

(** The chunks put together. *)
Definition joined (chunks : list bytes) : bytes :=
  foldr String.append EmptyString chunks.

(** What ends the loop of [socket_read] with a [break]: an empty chunk or
    a [socket.error]. *)
Definition stops (r : res bytes) : bool :=
  match r with
  | inr EmptyString => true
  | inr _ => false
  | inl e => isinstance e SocketError
  end.

(** ** Responses that are due *)

(** The requests [marshall_response] answers: an absent one, an empty one
    and one with an [id]. *)
Definition due (request : option dict) : Prop :=
  from_option (λ r : dict, r = ∅ ∨ is_Some (r !! "id")) True request.

(** The [id] of the answer. *)
Definition echoed_id (request : option dict) : value :=
  default VNone (request ≫= (.!! "id")).

(** The response object for a result and for an error object. *)
Definition result_response (id result : value) : dict :=
  {[ "result" := result; "id" := id; "jsonrpc" := VStr "2.0" ]}.

Definition error_response (id error : value) : dict :=
  {[ "error" := error; "id" := id; "jsonrpc" := VStr "2.0" ]}.

(** The names that a call through the proxy binds by position: [self] and
    [name] on the way to [__remote_call], [self] and [method] in the call
    of [marshall_request]. *)
Definition bound_names : list string := ["self"; "name"; "method"].


(** The table's object for an exception, once [marshall_error] has put the
    exception's arguments into an object that held [members]. *)
Definition error_object (members : dict) (exc : exn) : dict :=
  <["data" := jsonrpc.args_or_None (exn_args exc)]> members.

(** A socket on which the peer hangs up without a word, and one on which
    reading is interrupted after the first chunk. *)
Definition hung_up : util.socket :=
  {| util.sock_timeout := None;
     util.sock_recv := [inr EmptyString];
     util.sock_broken := None;
     util.sock_sent := [];
     util.sock_closed := false |}.

Definition interrupted : util.socket :=
  {| util.sock_timeout := None;
     util.sock_recv := [inr "{1: "; inl (Exn KeyboardInterrupt []); inr "2}"];
     util.sock_broken := None;
     util.sock_sent := [];
     util.sock_closed := false |}.

(** The bytes of the calls [add(2, 3)] and [fail()] and of their
    answers. *)
Definition add_request : bytes :=
  written (VDict KStr (jsonrpc.request_members "add" [VInt 2; VInt 3] ∅)).

Definition add_reply : bytes :=
  written (VDict KStr (result_response (VInt 0) (VInt 5))).


Definition boom : exn := Exn InternalError [VStr "boom"].

Definition internal_error : dict :=
  {[ "code" := VInt (-32603); "message" := VStr "Internal error" ]}.

Definition parse_error : dict :=
  {[ "code" := VInt (-32700); "message" := VStr "Parse Error" ]}.

Definition fail_reply : bytes :=
  written (VDict KStr (error_response (VInt 0)
                    (VDict KStr (error_object internal_error boom)))).

(** * Properties *)

(** ** Text *)

Lemma append_cons (c : ascii) (s t : string) :
  String c s +:+ t = String c (s +:+ t).
Proof. reflexivity. Qed.

Lemma append_assoc (s t u : string) : (s +:+ t) +:+ u = s +:+ t +:+ u.
Proof.
  induction s as [|c s IH]; [done|]. by rewrite !append_cons, IH.
Qed.

Lemma append_nil_r (s : string) : s +:+ EmptyString = s.
Proof. induction s as [|c s IH]; [done|]. by rewrite append_cons, IH. Qed.

Lemma append_not_empty (s t : string) : s ≠ EmptyString → s +:+ t ≠ EmptyString.
Proof. by destruct s. Qed.

Lemma is_prefix_append (s t : string) : is_prefix s (s +:+ t) = true.
Proof.
  induction s as [|c s IH]; [done|].
  rewrite append_cons. cbn. by rewrite Ascii.eqb_refl.
Qed.

Lemma is_infix_prefix (s t : string) : is_infix s (s +:+ t) = true.
Proof.
  replace (is_infix s (s +:+ t))
    with (is_prefix s (s +:+ t)
          || match s +:+ t with
             | EmptyString => false
             | String _ t' => is_infix s t'
             end) by (by destruct (s +:+ t)).
  by rewrite is_prefix_append.
Qed.

Lemma is_infix_append (s p t : string) :
  is_infix s t = true → is_infix s (p +:+ t) = true.
Proof.
  intros H. induction p as [|c p IH]; [done|].
  rewrite append_cons. cbn. rewrite IH. apply orb_true_r.
Qed.

Lemma repr_char_plain (q c : ascii) :
  needs_escape q c = false → repr_char q c = char c.
Proof.
  unfold needs_escape, repr_char. cbn zeta.
  intros [[Hq Hlo]%orb_false_elim Hhi]%orb_false_elim.
  rewrite Hq, Hlo, Hhi. cbn [orb].
  apply N.ltb_ge in Hlo.
  by rewrite !(proj2 (N.eqb_neq _ _)) by lia.
Qed.

Lemma repr_chars_plain (q : ascii) (s : string) :
  forallb (λ c, negb (needs_escape q c)) (list_ascii_of_string s) = true →
  repr_chars q s = s.
Proof.
  induction s as [|c s IH]; cbn; [done|].
  intros [Hc Hs]%andb_true_iff. apply negb_true_iff in Hc.
  by rewrite (repr_char_plain _ _ Hc), (IH Hs).
Qed.

Lemma str_repr_plain (s : string) :
  repr_plain s = true →
  str_repr s = String (repr_quote s) (s +:+ char (repr_quote s)).
Proof. intros H. unfold str_repr. by rewrite (repr_chars_plain _ _ H). Qed.

(** ** Text of the two kinds *)

Lemma py_str_error v e : py_str v = inl e → exn_type e = UnicodeEncodeError.
Proof.
  destruct v; try done. cbn. destruct (is_ascii s); [done|]. by intros [= <-].
Qed.

Lemma unicode_piece_error p e :
  unicode_piece p = inl e → exn_type e = UnicodeDecodeError.
Proof.
  destruct p as [s|[]]; try done. cbn.
  destruct (is_ascii s); [done|]. by intros [= <-].
Qed.

Lemma format_unicode_error ps e :
  format_unicode ps = inl e → exn_type e = UnicodeDecodeError.
Proof.
  induction ps as [|p ps IH]; [done|]. cbn [format_unicode].
  destruct (unicode_piece p) as [e'|s] eqn:Hp.
  - intros [= <-]. by apply unicode_piece_error in Hp.
  - cbn [mbind res_bind]. by destruct (format_unicode ps).
Qed.

(** Formatting raises nothing but [UnicodeDecodeError]. *)
Lemma py_format_error ps e :
  py_format ps = inl e → exn_type e = UnicodeDecodeError.
Proof.
  unfold py_format. generalize EmptyString as made.
  induction ps as [|p ps IH]; intros made; [done|].
  destruct p as [s|v]; cbn [format_from]; [apply IH|].
  destruct v; try apply IH.
  destruct (format_unicode _) as [e'|rest] eqn:Hrest.
  - intros [= <-]. by apply format_unicode_error in Hrest.
  - cbn [mbind res_bind]. destruct (is_ascii made); [done|]. by intros [= <-].
Qed.


(** The message of [unmarshall_error], by the kinds of its two parts. *)
Lemma py_format_message (a b : value) :
  py_format [Arg a; Lit ": "; Arg b] =
    match a, b with
    | VUnicode s, _ =>
        t ← unicode_piece (Arg b); mret (VUnicode (s +:+ ": " +:+ t))
    | _, VUnicode t =>
        if is_ascii (text_of a +:+ ": ")
        then inr (VUnicode (text_of a +:+ ": " +:+ t))
        else inl (decode_error (text_of a +:+ ": "))
    | _, _ => inr (VStr (text_of a +:+ ": " +:+ text_of b))
    end.
Proof.
  unfold py_format.
  destruct a; cbn [format_from format_unicode];
    try (destruct b; cbn [format_from format_unicode unicode_piece mbind
                            res_bind mret res_ret];
         rewrite ?append_nil_r, ?append_assoc; try done;
         by destruct (is_ascii _)).
  destruct (unicode_piece (Arg b)); cbn; [done|].
  by rewrite append_nil_r.
Qed.

(** [str] of an exception raises nothing but the two [UnicodeError]s. *)
Lemma exn_str_error e0 e :
  exn_str e0 = inl e →
  exn_type e = UnicodeEncodeError ∨ exn_type e = UnicodeDecodeError.
Proof.
  assert (∀ args, args_str args = inl e → exn_type e = UnicodeEncodeError)
    as Hargs.
  { intros [|a [|b args]]; try done. apply py_str_error. }
  unfold exn_str. intros H.
  repeat case_match; try done; try (left; eapply Hargs; eassumption).
  destruct (py_format _) as [e'|text] eqn:Hf.
  - injection H as <-. right. by apply py_format_error in Hf.
  - left. by apply py_str_error in H.
Qed.

(** Outside the classes with a text of their own, [str] of an exception
    is [str] of its arguments. *)
Lemma exn_str_args c args :
  c ∉ [KeyError; SocketError; UnicodeEncodeError; UnicodeDecodeError] →
  exn_str (Exn c args) = args_str args.
Proof.
  intros Hc. unfold exn_str. cbn.
  destruct c; try done; exfalso; apply Hc; set_solver.
Qed.

Section facts.
Variable json_dumps : value → res bytes.
Variable json_loads : bytes → res value.

Lemma dict_truth_true (d : dict) : dict_truth d = true ↔ d ≠ ∅.
Proof.
  unfold dict_truth. rewrite negb_true_iff, Nat.eqb_neq.
  by rewrite map_size_empty_iff.
Qed.


Lemma has_items_true (args : list value) :
  jsonrpc.has_items args = true ↔ args ≠ [].
Proof. destruct args; cbn; split; congruence. Qed.

(** [str] refuses a key exactly when the key is [unicode] and not
    ASCII. *)
Lemma str_key_accepted keys (k : string) :
  (keys = KUnicode → is_ascii k = true) → jsonrpc.str_key keys k = inr k.
Proof.
  unfold jsonrpc.str_key, py_str. destruct keys; [done|]. cbn.
  intros H. by rewrite H.
Qed.


Lemma str_key_result keys (k k' : string) :
  jsonrpc.str_key keys k = inr k' →
  k' = k ∧ (keys = KUnicode → is_ascii k = true).
Proof.
  unfold jsonrpc.str_key, py_str. destruct keys; cbn; [by intros [= <-]|].
  destruct (is_ascii k); [by intros [= <-]|done].
Qed.

(** Rebuilding a dictionary from items whose keys [str] accepts. *)
Lemma dict_of_items_accepted keys (items : list (string * value)) :
  (keys = KUnicode → Forall (λ kv, is_ascii kv.1 = true) items) →
  jsonrpc.dict_of_items keys items
  = inr (foldl (λ d kv, <[kv.1 := kv.2]> d) ∅ items).
Proof.
  unfold jsonrpc.dict_of_items.
  induction items as [|[k v] l IH] using rev_ind; [done|].
  intros Hall. rewrite !foldl_snoc, IH; cycle 1.
  { intros Hk. by apply Hall, Forall_app in Hk as [? _]. }
  cbn [mbind res_bind fst snd]. rewrite str_key_accepted; [done|].
  intros Hk. apply Hall, Forall_app in Hk as [_ Hk]. by apply Forall_inv in Hk.
Qed.


Lemma foldl_insert_to_list (m : dict) :
  foldl (λ d kv, <[kv.1 := kv.2]> d) ∅ (map_to_list m) = m.
Proof.
  transitivity (list_to_map (M := dict) (reverse (map_to_list m))).
  - induction (map_to_list m) as [|[k v] l IH] using rev_ind; [done|].
    by rewrite foldl_snoc, reverse_snoc, IH.
  - rewrite <- (list_to_map_to_list m) at 2.
    apply list_to_map_proper.
    + rewrite fmap_reverse, reverse_Permutation.
      apply NoDup_fst_map_to_list.
    + apply reverse_Permutation.
Qed.

(** Line 89 gives the dictionary back when [str] accepts its keys: when
    they are [str], or [unicode] and ASCII. *)
Lemma dict_of_items_to_list keys (m : dict) :
  (keys = KUnicode → map_Forall (λ k _, is_ascii k = true) m) →
  jsonrpc.dict_of_items keys (map_to_list m) = inr m.
Proof.
  intros Hm. rewrite dict_of_items_accepted, foldl_insert_to_list; [done|].
  intros Hk. apply Forall_forall.
  intros [k v] Hkv%elem_of_map_to_list. by apply (Hm Hk k v).
Qed.

Lemma dict_of_items_result keys (m d : dict) :
  jsonrpc.dict_of_items keys (map_to_list m) = inr d →
  d = m ∧ (keys = KUnicode → map_Forall (λ k _, is_ascii k = true) m).
Proof.
  intros Hd.
  assert (keys = KUnicode → map_Forall (λ k _, is_ascii k = true) m) as Hm.
  { intros Hkeys k v Hkv. destruct (is_ascii k) eqn:Hk; [done|]. exfalso.
    apply elem_of_map_to_list in Hkv. revert d Hd Hkv.
    unfold jsonrpc.dict_of_items.
    induction (map_to_list m) as [|[k' v'] l IH] using rev_ind;
      [by intros ? _ ?%elem_of_nil|].
    intros d. rewrite foldl_snoc.
    destruct (foldl _ _ l) as [e'|d'] eqn:Hl; [done|].
    cbn [mbind res_bind fst snd].
    destruct (jsonrpc.str_key keys k') as [e'|k''] eqn:Hk'; [done|]. intros _.
    apply str_key_result in Hk' as [_ Hk'].
    intros [Hin|Hin]%elem_of_app; [by apply (IH d')|].
    apply elem_of_cons in Hin as [Hin|Hin%elem_of_nil]; [|done].
    injection Hin as <- <-. specialize (Hk' Hkeys). congruence. }
  split; [|done]. rewrite (dict_of_items_to_list _ _ Hm) in Hd. congruence.
Qed.

(** A successful [json.loads] is a successful [decode], and a successful
    [json.dumps] a successful [encode]. *)
Lemma decode_loads data v :
  json_loads data = inr v →
  rpc.decode (jsonrpc.serializer json_dumps json_loads) data = inr v.
Proof. cbn. by intros ->. Qed.

Lemma encode_dumps v data :
  json_dumps v = inr data →
  rpc.encode (jsonrpc.serializer json_dumps json_loads) v = inr data.
Proof. cbn. by intros ->. Qed.

(** ** Request round trip *)








(** Positional and named arguments together are refused. *)
Lemma marshall_request_mixed_arguments method args kwargs :
  args ≠ [] → kwargs ≠ ∅ →
  jsonrpc.marshall_request json_dumps json_loads method args kwargs =
    raise ProtocolError "Cannot use both positional and keyword arguments".
Proof.
  intros Ha%has_items_true Hk%dict_truth_true.
  unfold jsonrpc.marshall_request. by rewrite Ha, Hk.
Qed.

(** ** Responses *)

(** C4, as the code has it.  For a request mapping that is not empty and
    has no [id] member, [marshall_response] returns nothing, whatever the
    result and the error, and leaves the error table alone; the handler
    then writes no bytes. *)
Theorem notification_gets_no_response (request : dict) result error h :
  request ≠ ∅ →
  request !! "id" = None →
  jsonrpc.marshall_response json_dumps json_loads (Some request) result error h
    = (inr None, h)
  ∧ rpc.respond
      (jsonrpc.marshall_response json_dumps json_loads (Some request)
         result error h) = (rpc.Silent, h).
Proof.
  intros Hne Hid. unfold jsonrpc.marshall_response. cbn [from_option].
  apply dict_truth_true in Hne. rewrite Hne, Hid.
  by rewrite bool_decide_eq_false_2 by (by intros [? ?]).
Qed.

(** ** Requests that are not mappings *)

(** C10.  When the serializer decodes the bytes to a value that is not a
    mapping, [unmarshall_request] raises a [TypeError], which is outside the
    [Error] family (neither [ParseError] nor [InvalidRequestError]); the
    handler does not catch it and ends without marshalling or sending a
    response. *)
Theorem non_mapping_request_aborts_handler d data v h :
  json_loads data = inr v →
  (∀ keys m, v ≠ VDict keys m) →
  ∃ e,
    jsonrpc.unmarshall_request json_dumps json_loads data = inl e
    ∧ exn_type e = TypeError
    ∧ isinstance e Error = false
    ∧ rpc.handle (jsonrpc.TCPServer json_dumps json_loads d) (inr data) h
      = (rpc.Aborted e, h).
Proof.
  intros Hload Hv. exists (getitem_type_error v).
  assert (jsonrpc.unmarshall_request json_dumps json_loads data
          = inl (getitem_type_error v)) as Hun.
  { unfold jsonrpc.unmarshall_request.
    rewrite (decode_loads _ _ Hload). cbn [mbind res_bind].
    destruct v; try done. by destruct (Hv keys m). }
  repeat split; [done|].
  unfold rpc.handle.
  change (rpc.unmarshall_request (rpc.protocol _) data)
    with (jsonrpc.unmarshall_request json_dumps json_loads data).
  by rewrite Hun.
Qed.

End facts.

(** ** The handler *)

Section handler.
Context {σ : Type}.
Variable server : rpc.TCPServer σ.




(** What the handler does with a failure outside the [Error] family. *)
Lemma handle_lets_other_failures_through data s e :
  isinstance e Error = false →
  rpc.unmarshall_request (rpc.protocol server) data = inl e →
  rpc.handle server (inr data) s = (rpc.Aborted e, s).
Proof. intros He Hun. cbn. by rewrite Hun, He. Qed.

End handler.

(** ** The dispatcher *)

(** Looking up a method that is not registered ends in the [NameError] of
    line 96. *)
Lemma dispatch_unregistered self method args kwargs :
  rpc.funcs self !! method = None →
  rpc.dispatch self method args kwargs =
    raise NameError "global name 'rpc' is not defined".
Proof. intros H. unfold rpc.dispatch. by rewrite H. Qed.


(** C1, at the failing input.  With only [add] registered, dispatching
    [sub] raises [NameError], not [MethodNotFoundError]: line 96 names the
    class through [rpc], a name the module [rpc] does not bind.  The
    server's handler does not catch it, so a request for [sub] gets no
    response; [add] is dispatched as expected. *)
Theorem dispatch_unknown_method_raises_NameError :
  rpc.funcs (rpc.dispatcher demo_server) !! "sub" = None
  ∧ rpc.dispatch (rpc.dispatcher demo_server) "sub" [VInt 2; VInt 3] ∅
    = inl (Exn NameError [VStr "global name 'rpc' is not defined"])
  ∧ rpc.handle demo_server
      (jsonrpc.marshall_request json.dumps json.loads "sub" [VInt 2; VInt 3] ∅)
      jsonrpc.ERRORS_loaded
    = (rpc.Aborted (Exn NameError [VStr "global name 'rpc' is not defined"]),
       jsonrpc.ERRORS_loaded)
  ∧ rpc.dispatch (rpc.dispatcher demo_server) "add" [VInt 3; VInt 4] ∅
    = inr (VInt 7).
Proof. repeat split; vm_compute; reflexivity. Qed.

(** ** The error table *)

Lemma table_intact_loaded : table_intact jsonrpc.ERRORS_loaded.
Proof. intros l d0 H. by exists d0. Qed.

(** [marshall_error] keeps the table intact. *)
Lemma table_intact_marshall_error exc h :
  table_intact h → table_intact (jsonrpc.marshall_error exc h).2.
Proof.
  intros Hh. unfold jsonrpc.marshall_error.
  destruct (jsonrpc.ERRORS !! exn_type exc) as [error|]; [|done].
  intros l d0 Hl. destruct (Hh l d0 Hl) as (d & Hd & Hcode & Hmsg). cbn.
  destruct (decide (error = l)) as [->|Hne].
  - eexists. rewrite lookup_alter_eq, Hd. cbn. split; [done|].
    by rewrite !lookup_insert_ne.
  - exists d. by rewrite lookup_alter_ne.
Qed.

(** So does [marshall_response], and so does a run of the handler: the
    table stays intact as long as the server runs. *)
Lemma table_intact_marshall_response json_dumps json_loads request result
    error h :
  table_intact h →
  table_intact
    (jsonrpc.marshall_response json_dumps json_loads request result error h).2.
Proof.
  intros Hh. unfold jsonrpc.marshall_response.
  destruct (_ && _); [done|].
  destruct (match request with Some _ => _ | None => _ end); [done|].
  destruct error as [e|]; [|done].
  pose proof (table_intact_marshall_error e h Hh) as He.
  by destruct (jsonrpc.marshall_error e h).
Qed.

Lemma respond_state {σ} (r : res (option bytes) * σ) : (rpc.respond r).2 = r.2.
Proof. unfold rpc.respond. by destruct r.1 as [|[[|]|]]. Qed.

Lemma table_intact_handle json_dumps json_loads d read h :
  table_intact h →
  table_intact
    (rpc.handle (jsonrpc.TCPServer json_dumps json_loads d) read h).2.
Proof.
  intros Hh. unfold rpc.handle.
  repeat match goal with
         | |- context [match ?x with _ => _ end] => destruct x
         | |- context [if ?x then _ else _] => destruct x
         end;
    rewrite ?respond_state; try done;
    by apply table_intact_marshall_response.
Qed.

(** The classes of the table and what it holds for them. *)
Lemma table_entry (c : pyclass) :
  is_Some (jsonrpc.ERRORS !! c) →
  ∃ l d0 z,
    jsonrpc.ERRORS !! c = Some l
    ∧ jsonrpc.ERRORS_loaded !! l = Some d0
    ∧ d0 !! "code" = Some (VInt z)
    ∧ d0 !! "message" = Some (VStr (table_message c))
    ∧ jsonrpc.EXCEPTIONS !! z = Some c.
Proof.
  destruct c; intros [l Hl]; try (by vm_compute in Hl);
    eexists _, _, _; repeat split; reflexivity.
Qed.

Lemma table_kinds (c : pyclass) :
  is_Some (jsonrpc.ERRORS !! c) ↔
  c ∈ [ParseError; InvalidRequestError; MethodNotFoundError;
       InvalidParamsError; InternalError].
Proof.
  split.
  - destruct c; intros [l Hl]; try (by vm_compute in Hl); set_solver.
  - intros H. repeat (apply elem_of_cons in H as [->|H]; [by eexists|]).
    by apply elem_of_nil in H.
Qed.

(** ** Errors on the wire *)

Lemma deref_marshalled exc h l d :
  jsonrpc.ERRORS !! exn_type exc = Some l →
  h !! l = Some d →
  jsonrpc.marshall_error exc h =
    (Some l, <[l := <["data" := jsonrpc.args_or_None (exn_args exc)]> d]> h).
Proof.
  intros Hl Hd. unfold jsonrpc.marshall_error. rewrite Hl. f_equal.
  apply map_eq. intros l'. destruct (decide (l = l')) as [<-|Hne].
  - by rewrite lookup_alter_eq, lookup_insert_eq, Hd.
  - by rewrite lookup_alter_ne, lookup_insert_ne.
Qed.

(** [unmarshall_error] on an object that has its three members. *)
Lemma unmarshall_error_members keys (error : dict) code message data :
  error !! "code" = Some code →
  error !! "message" = Some message →
  error !! "data" = Some data →
  jsonrpc.unmarshall_error (VDict keys error) =
    match py_format [Arg message; Lit ": "; Arg data] with
    | inl e => inl e
    | inr text =>
        match jsonrpc.EXCEPTIONS_getitem code with
        | inr cls => inr (Some (Exn cls [text]))
        | inl e => if isinstance e KeyError then inr None else inl e
        end
    end.
Proof.
  intros Hc Hm Hd. unfold jsonrpc.unmarshall_error, getitem.
  rewrite Hc. cbn [mbind res_bind]. rewrite Hm. cbn [mbind res_bind].
  rewrite Hd. cbn [mbind res_bind].
  destruct (py_format _) as [e|text] eqn:Hf; cbn [mbind res_bind].
  - apply py_format_error in Hf. unfold isinstance. by rewrite Hf.
  - by destruct (jsonrpc.EXCEPTIONS_getitem code).
Qed.

(** [unmarshall_error] on an object that lacks one of its members, and on
    what is no object. *)
Lemma unmarshall_error_incomplete keys (error : dict) :
  error !! "code" = None ∨ error !! "message" = None ∨ error !! "data" = None →
  jsonrpc.unmarshall_error (VDict keys error) = inr None.
Proof.
  intros H. unfold jsonrpc.unmarshall_error, getitem.
  destruct (error !! "code"); [|done]. cbn [mbind res_bind].
  destruct (error !! "message"); [|done]. cbn [mbind res_bind].
  destruct (error !! "data"); [|done]. by destruct H as [|[|]].
Qed.

(** C5, as the code has it.  For a class of the table and a detail text,
    the object [marshall_error] returns unmarshals to an error of the same
    class.  Its message is the table's message, a colon and the argument
    tuple as [str] prints it, so the detail appears in it the way [repr]
    writes it: the message contains the detail text itself when none of
    its characters is one [repr] escapes. *)
Theorem error_round_trip (c : pyclass) (detail : string) (h : jsonrpc.store) :
  is_Some (jsonrpc.ERRORS !! c) →
  table_intact h →
  let out := jsonrpc.marshall_error (Exn c [VStr detail]) h in
  let message :=
    table_message c +:+ ": " +:+ "(" +:+ str_repr detail +:+ ",)" in
  jsonrpc.unmarshall_error (jsonrpc.deref out.2 out.1)
    = inr (Some (Exn c [VStr message]))
  ∧ (repr_plain detail = true → is_infix detail message = true).
Proof.
  intros (l & d0 & z & Hl & Hd0 & Hcode & Hmsg & Hexc)%table_entry Hh.
  destruct (Hh l d0 Hd0) as (d & Hd & Hc & Hm).
  cbn zeta. split.
  - rewrite (deref_marshalled _ _ l d) by done. cbn.
    rewrite lookup_insert_eq. cbn.
    erewrite unmarshall_error_members;
      [|by rewrite lookup_insert_ne, Hc by done
       |by rewrite lookup_insert_ne, Hm, Hmsg by done
       |by rewrite lookup_insert_eq].
    rewrite py_format_message. cbn. by rewrite Hexc.
  - intros Hplain. rewrite (str_repr_plain _ Hplain).
    do 3 apply is_infix_append.
    rewrite append_cons. apply (is_infix_append _ (char _)).
    rewrite append_assoc. apply is_infix_prefix.
Qed.

(** C7, as the code has it.  For an error whose class is not in the table,
    [marshall_error] returns no object and leaves the table alone, and a
    response that is due carries [null] as its [error] member; the
    response itself is still encoded for sending. *)
Theorem unknown_kind_marshals_to_null json_dumps json_loads exc request
    result h :
  jsonrpc.ERRORS !! exn_type exc = None →
  jsonrpc.marshall_error exc h = (None, h)
  ∧ (from_option (λ r : dict, r = ∅ ∨ is_Some (r !! "id")) True request →
     jsonrpc.marshall_response json_dumps json_loads request result (Some exc) h
     = (Some <$> rpc.encode (jsonrpc.serializer json_dumps json_loads)
                   (VDict KStr {[ "error" := VNone;
                             "id" := default VNone (request ≫= (.!! "id"));
                             "jsonrpc" := VStr "2.0" ]}),
        h)).
Proof.
  intros Hc.
  assert (jsonrpc.marshall_error exc h = (None, h)) as Hm
    by (unfold jsonrpc.marshall_error; by rewrite Hc).
  split; [done|]. intros Hdue. unfold jsonrpc.marshall_response.
  rewrite Hm. destruct request as [r|]; cbn in Hdue |- *; [|done].
  destruct Hdue as [->|[id Hid]]; [done|].
  rewrite Hid, bool_decide_eq_true_2, andb_false_r by done.
  assert (dict_truth r = true) as ->.
  { apply dict_truth_true. intros ->. by rewrite lookup_empty in Hid. }
  done.
Qed.

(** C8, as the code has it.  For an error of a class of the table,
    [marshall_error] returns the table's own object for that class and sets
    its [data] member to the argument tuple, or to [None] when the tuple is
    empty; the other members and the other objects stay as they were.  A
    later call for the same class returns the same object, and the object
    returned first then shows the later error's data. *)
Theorem marshall_error_aliases_table exc1 exc2 h l :
  jsonrpc.ERRORS !! exn_type exc1 = Some l →
  exn_type exc2 = exn_type exc1 →
  is_Some (h !! l) →
  let out1 := jsonrpc.marshall_error exc1 h in
  let out2 := jsonrpc.marshall_error exc2 out1.2 in
  out1.1 = Some l ∧ out2.1 = Some l
  ∧ getitem (jsonrpc.deref out1.2 out1.1) "data"
    = inr (jsonrpc.args_or_None (exn_args exc1))
  ∧ getitem (jsonrpc.deref out2.2 out1.1) "data"
    = inr (jsonrpc.args_or_None (exn_args exc2))
  ∧ (∀ key, key ≠ "data" →
       getitem (jsonrpc.deref out1.2 out1.1) key
       = getitem (jsonrpc.deref h (Some l)) key)
  ∧ (∀ l', l' ≠ l → out1.2 !! l' = h !! l').
Proof.
  intros Hl Hty [d Hd]. cbn zeta.
  rewrite (deref_marshalled exc1 h l d) by done. cbn [fst snd].
  rewrite (deref_marshalled exc2 _ l (<["data" := _]> d))
    by (by rewrite ?Hty, ?lookup_insert_eq).
  cbn [fst snd jsonrpc.deref getitem]. rewrite !lookup_insert_eq, Hd. cbn.
  rewrite !lookup_insert_eq. repeat split.
  - intros key Hkey. by rewrite lookup_insert_ne.
  - intros l' Hne. by rewrite lookup_insert_ne.
Qed.

(** ** Error responses *)

Section error_responses.
Variable json_dumps : value → res bytes.
Variable json_loads : bytes → res value.


(** A response with a valid envelope and an [error] member. *)
Lemma unmarshall_error_response data keys (response : dict) version error :
  json_loads data = inr (VDict keys response) →
  response !! "jsonrpc" = Some version →
  str_eq version "2.0" = true →
  is_Some (response !! "id") →
  response !! "error" = Some error →
  jsonrpc.unmarshall_response json_dumps json_loads data =
    (x ← jsonrpc.unmarshall_error error; py_raise x).
Proof.
  intros Hload Hv Hversion [id Hid] He. unfold jsonrpc.unmarshall_response.
  rewrite (decode_loads _ _ _ _ Hload). cbn [mbind res_bind].
  rewrite Hv, Hversion. cbn [mbind res_bind]. by rewrite Hid, He.
Qed.


(** A code outside the table has no class. *)
Lemma EXCEPTIONS_getitem_unknown code :
  code_in_table code = false →
  ∃ e, jsonrpc.EXCEPTIONS_getitem code = inl e
       ∧ (exn_type e = KeyError ∨ exn_type e = TypeError).
Proof.
  intros Hcode. unfold jsonrpc.EXCEPTIONS_getitem.
  destruct (jsonrpc.unhashable code); [eexists; by split; [|right]|].
  assert (match code with
          | VInt z => jsonrpc.EXCEPTIONS !! z
          | VBool b => jsonrpc.EXCEPTIONS !! Z.b2z b
          | _ => None
          end = None) as ->; [|eexists; by split; [|left]].
  destruct code as [|[]|z| | | | |]; try done. cbn in Hcode.
  apply bool_decide_eq_false in Hcode.
  by apply eq_None_not_Some.
Qed.

(** An error object with a code outside the table makes no exception:
    [unmarshall_error] returns [None], or raises a [TypeError] for a code
    that cannot be hashed or a [UnicodeDecodeError] when the message
    cannot be formatted. *)
Lemma unmarshall_error_unknown keys (error : dict) code :
  error !! "code" = Some code →
  code_in_table code = false →
  jsonrpc.unmarshall_error (VDict keys error) = inr None
  ∨ ∃ e, jsonrpc.unmarshall_error (VDict keys error) = inl e
         ∧ (exn_type e = TypeError ∨ exn_type e = UnicodeDecodeError).
Proof.
  intros Hc Hcode.
  destruct (error !! "message") as [message|] eqn:Hm;
    [|left; apply unmarshall_error_incomplete; auto].
  destruct (error !! "data") as [data|] eqn:Hd;
    [|left; apply unmarshall_error_incomplete; auto].
  rewrite (unmarshall_error_members _ _ _ _ _ Hc Hm Hd).
  destruct (py_format _) as [e|text] eqn:Hf.
  { right. exists e. split; [done|]. right. by apply py_format_error in Hf. }
  destruct (EXCEPTIONS_getitem_unknown _ Hcode) as ([c args] & -> & [Hty|Hty]);
    cbn in Hty; subst c; [by left|right; eexists; split; [done|by left]].
Qed.

(** C6.  A response with a valid envelope whose [error] member carries a
    code that is not in the table makes [unmarshall_response] raise; it
    returns no result.  What it raises is a [TypeError], or the
    [UnicodeDecodeError] of a message that cannot be formatted. *)
Theorem unknown_error_code_fails data keys (response : dict) keys'
    (error : dict) version code :
  json_loads data = inr (VDict keys response) →
  response !! "jsonrpc" = Some version →
  str_eq version "2.0" = true →
  is_Some (response !! "id") →
  response !! "error" = Some (VDict keys' error) →
  error !! "code" = Some code →
  code_in_table code = false →
  ∃ e, jsonrpc.unmarshall_response json_dumps json_loads data = inl e
       ∧ (exn_type e = TypeError ∨ exn_type e = UnicodeDecodeError).
Proof.
  intros Hload Hv Hversion Hid He Hc Hcode.
  rewrite (unmarshall_error_response _ _ _ _ _ Hload Hv Hversion Hid He).
  destruct (unmarshall_error_unknown keys' _ _ Hc Hcode)
    as [->|(e & -> & Hty)];
    eexists; (split; [done|]); [by left|done].
Qed.


End error_responses.

(** * The properties at concrete inputs *)



(** A notification [add(2, 3)] is not answered. *)
Lemma notification_gets_no_response_witness :
  jsonrpc.marshall_response json.dumps json.loads (Some notify_add) (VInt 5)
    None jsonrpc.ERRORS_loaded = (inr None, jsonrpc.ERRORS_loaded).
Proof.
  apply (notification_gets_no_response json.dumps json.loads notify_add).
  - intros H. apply (f_equal (.!! "method")) in H.
    vm_compute in H. discriminate H.
  - vm_compute. reflexivity.
Defined.

(** A JSON array as request. *)
Lemma non_mapping_request_aborts_handler_witness :
  ∃ e,
    jsonrpc.unmarshall_request json.dumps json.loads "[1, 2]" = inl e
    ∧ exn_type e = TypeError
    ∧ isinstance e Error = false
    ∧ rpc.handle demo_server (inr "[1, 2]") jsonrpc.ERRORS_loaded
      = (rpc.Aborted e, jsonrpc.ERRORS_loaded).
Proof.
  apply (non_mapping_request_aborts_handler json.dumps json.loads
           (rpc.dispatcher demo_server) "[1, 2]" (VList [VInt 1; VInt 2])).
  - vm_compute. reflexivity.
  - intros keys m H. discriminate H.
Defined.

(** [MethodNotFoundError('sub')] through the table and back. *)
Lemma error_round_trip_witness :
  let out :=
    jsonrpc.marshall_error (Exn MethodNotFoundError [VStr "sub"])
      jsonrpc.ERRORS_loaded in
  jsonrpc.unmarshall_error (jsonrpc.deref out.2 out.1)
    = inr (Some (Exn MethodNotFoundError [VStr "Method not found: ('sub',)"]))
  ∧ is_infix "sub" "Method not found: ('sub',)" = true.
Proof.
  destruct (error_round_trip MethodNotFoundError "sub" jsonrpc.ERRORS_loaded)
    as [Hkind Hdetail].
  - exists 2. vm_compute. reflexivity.
  - exact table_intact_loaded.
  - split; [exact Hkind|]. apply Hdetail. vm_compute. reflexivity.
Defined.

(** An error response with code 5. *)
Lemma unknown_error_code_fails_witness :
  ∃ e,
    jsonrpc.unmarshall_response json.dumps json.loads
      (written (VDict KUnicode unknown_code_response)) = inl e
    ∧ (exn_type e = TypeError ∨ exn_type e = UnicodeDecodeError).
Proof.
  apply (unknown_error_code_fails json.dumps json.loads _
           KUnicode unknown_code_response KUnicode unknown_code_error
           (VUnicode "2.0") (VInt 5)).
  - vm_compute. reflexivity.
  - vm_compute. reflexivity.
  - reflexivity.
  - exists (VInt 0). vm_compute. reflexivity.
  - vm_compute. reflexivity.
  - vm_compute. reflexivity.
  - vm_compute. reflexivity.
Defined.

(** A [ProtocolError] has no entry in the table. *)
Lemma unknown_kind_marshals_to_null_witness :
  jsonrpc.marshall_error (Exn ProtocolError [VStr "mixed arguments"])
    jsonrpc.ERRORS_loaded = (None, jsonrpc.ERRORS_loaded).
Proof.
  apply (unknown_kind_marshals_to_null json.dumps json.loads
           (Exn ProtocolError [VStr "mixed arguments"]) None VNone).
  vm_compute. reflexivity.
Defined.

(** Two [MethodNotFoundError]s in a row share one object. *)
Lemma marshall_error_aliases_table_witness :
  let out1 :=
    jsonrpc.marshall_error (Exn MethodNotFoundError [VStr "sub"])
      jsonrpc.ERRORS_loaded in
  let out2 :=
    jsonrpc.marshall_error (Exn MethodNotFoundError [VStr "mul"]) out1.2 in
  out1.1 = out2.1
  ∧ getitem (jsonrpc.deref out1.2 out1.1) "data" = inr (VTuple [VStr "sub"])
  ∧ getitem (jsonrpc.deref out2.2 out1.1) "data" = inr (VTuple [VStr "mul"]).
Proof.
  destruct (marshall_error_aliases_table
              (Exn MethodNotFoundError [VStr "sub"])
              (Exn MethodNotFoundError [VStr "mul"])
              jsonrpc.ERRORS_loaded 2)
    as (H1 & H2 & Hfirst & Hlater & _).
  - vm_compute. reflexivity.
  - reflexivity.
  - eexists. vm_compute. reflexivity.
  - cbn zeta. rewrite H1, H2. split; [reflexivity|].
    split; [exact Hfirst|exact Hlater].
Defined.


(** * Counterexamples *)

(** C2.  A tuple among the arguments comes back as a list: for the call
    [add((1, 2))] the bytes [marshall_request] writes unmarshal to the
    argument [[1, 2]], which is not the argument that was given. *)
Lemma request_round_trip_nested_tuple :
  let args := [VTuple [VInt 1; VInt 2]] in
  let data := written (VDict KStr (jsonrpc.request_members "add" args ∅)) in
  jsonrpc.marshall_request json.dumps json.loads "add" args ∅ = inr data
  ∧ jsonrpc.unmarshall_request json.dumps json.loads data
    = inr (json_image <$> jsonrpc.request_members "add" args ∅,
           "add", VList [VList [VInt 1; VInt 2]], ∅)
  ∧ rpc.star_args (VList [VList [VInt 1; VInt 2]])
    = inr [VList [VInt 1; VInt 2]]
  ∧ [VList [VInt 1; VInt 2]] ≠ args
  ∧ ¬ same_text (VList [VInt 1; VInt 2]) (VTuple [VInt 1; VInt 2]).
Proof.
  repeat split; try (vm_compute; reflexivity).
  - intros H. discriminate H.
  - intros H. inversion H.
Qed.


(** C4.  For the empty mapping, which has no [id], [marshall_response]
    returns bytes: a response whose [id] is null. *)
Lemma empty_request_gets_response :
  let response :=
    written (VDict KStr {[ "jsonrpc" := VStr "2.0"; "id" := VNone;
                      "result" := VInt 42 ]}) in
  (∅ : dict) !! "id" = None
  ∧ jsonrpc.marshall_response json.dumps json.loads (Some ∅) (VInt 42) None
      jsonrpc.ERRORS_loaded = (inr (Some response), jsonrpc.ERRORS_loaded)
  ∧ is_prefix "{" response = true
  ∧ json.loads response
    = inr (VDict KUnicode {[ "jsonrpc" := VUnicode "2.0"; "id" := VNone;
                         "result" := VInt 42 ]}).
Proof. repeat split; vm_compute; reflexivity. Qed.

(** C5.  A detail with a backslash comes back doubled: the message of the
    unmarshalled [ParseError] does not contain the detail text. *)
Lemma error_round_trip_escaped_detail :
  let out :=
    jsonrpc.marshall_error (Exn ParseError [VStr "C:\temp"])
      jsonrpc.ERRORS_loaded in
  let message := "Parse Error: ('C:\\temp',)" in
  jsonrpc.unmarshall_error (jsonrpc.deref out.2 out.1)
    = inr (Some (Exn ParseError [VStr message]))
  ∧ is_infix "C:\temp" message = false.
Proof. repeat split; vm_compute; reflexivity. Qed.

(** C7.  A [ProtocolError] for a request with an [id]: bytes are returned
    and the handler's test lets them go out; they are a response whose
    [error] member is null. *)
Lemma unknown_kind_response_is_sent :
  let response :=
    written (VDict KStr {[ "jsonrpc" := VStr "2.0"; "id" := VInt 7;
                      "error" := VNone ]}) in
  jsonrpc.marshall_response json.dumps json.loads
    (Some {[ "id" := VInt 7 ]}) VNone
    (Some (Exn ProtocolError [VStr "mixed arguments"]))
    jsonrpc.ERRORS_loaded
  = (inr (Some response), jsonrpc.ERRORS_loaded)
  ∧ rpc.respond (inr (Some response), jsonrpc.ERRORS_loaded)
    = (rpc.Sent response, jsonrpc.ERRORS_loaded)
  ∧ is_prefix "{" response = true
  ∧ json.loads response
    = inr (VDict KUnicode {[ "jsonrpc" := VUnicode "2.0"; "id" := VInt 7;
                         "error" := VNone ]}).
Proof. repeat split; vm_compute; reflexivity. Qed.

(** C8.  For an error made without arguments the [data] member is [None],
    not the (empty) argument tuple. *)
Lemma marshall_error_without_arguments :
  let exc := Exn ParseError [] in
  let out := jsonrpc.marshall_error exc jsonrpc.ERRORS_loaded in
  getitem (jsonrpc.deref out.2 out.1) "data" = inr VNone
  ∧ getitem (jsonrpc.deref out.2 out.1) "data" ≠ inr (VTuple (exn_args exc)).
Proof.
  assert (getitem (jsonrpc.deref
                     (jsonrpc.marshall_error (Exn ParseError [])
                        jsonrpc.ERRORS_loaded).2
                     (jsonrpc.marshall_error (Exn ParseError [])
                        jsonrpc.ERRORS_loaded).1) "data" = inr VNone) as E
    by (vm_compute; reflexivity).
  cbn zeta. rewrite E. split; [reflexivity|]. intros H. discriminate H.
Qed.

(** C9.  A response with a [result] and an [error] whose object has no
    [data]: no error is reconstructed, [unmarshall_error] returns [None],
    and what the call raises is the [TypeError] of [raise None], which is
    outside the [Error] family. *)
Lemma error_without_data_raises_TypeError :
  let e :=
    Exn TypeError
      [VStr "exceptions must be old-style classes or derived from BaseException, not NoneType"] in
  bare_error_and_result !! "result" = Some (VInt 3)
  ∧ bare_error_and_result !! "error" = Some (VDict KUnicode not_found_bare)
  ∧ json.loads (written (VDict KUnicode bare_error_and_result))
    = inr (VDict KUnicode bare_error_and_result)
  ∧ jsonrpc.unmarshall_error (VDict KUnicode not_found_bare) = inr None
  ∧ jsonrpc.unmarshall_response json.dumps json.loads
      (written (VDict KUnicode bare_error_and_result)) = inl e
  ∧ isinstance e Error = false.
Proof. repeat split; vm_compute; reflexivity. Qed.

(** * Further properties *)

(** ** [util.py]: reading until the peer pauses *)

Lemma socket_recv_chunk sock bufsize data rest :
  util.sock_recv sock = inr data :: rest →
  data ≠ EmptyString →
  util.socket_recv sock bufsize = (inr data, util.set_recv rest sock).
Proof.
  intros Hs Hd. unfold util.socket_recv, util.recv. rewrite Hs.
  by destruct data.
Qed.

Lemma socket_recv_stop sock bufsize r rest :
  util.sock_recv sock = r :: rest →
  stops r = true →
  ∃ e, util.socket_recv sock bufsize = (inl e, util.set_recv rest sock)
       ∧ isinstance e SocketError = true.
Proof.
  intros Hs Hr. unfold util.socket_recv, util.recv. rewrite Hs.
  destruct r as [e|[|c d]]; try done; by eexists.
Qed.

(** What a call of [socket_recv] leaves of the socket. *)
Lemma socket_recv_frame sock bufsize :
  let sock' := (util.socket_recv sock bufsize).2 in
  sock' = util.set_recv (drop 1 (util.sock_recv sock)) sock.
Proof.
  unfold util.socket_recv, util.recv.
  destruct sock as [t [|[e|[|c d]] rest] b s c']; reflexivity.
Qed.

Lemma socket_recv_data sock bufsize data sock' :
  util.socket_recv sock bufsize = (inr data, sock') → data ≠ EmptyString.
Proof.
  unfold util.socket_recv, util.recv.
  destruct (util.sock_recv sock) as [|[e|[|c d]] rest]; intros [= <- _]; done.
Qed.

(** The loop reads the chunks in front of the first thing that stops it. *)
Lemma drain_chunks (more : list bytes) : ∀ fuel sock bufsize data tail,
  util.sock_recv sock = ((inr <$> more) ++ tail)%list →
  Forall (λ d, d ≠ EmptyString) more →
  match tail with [] => True | r :: _ => stops r = true end →
  length more < fuel →
  util.drain fuel sock bufsize data =
    Some (inr (data +:+ joined more), util.set_recv (drop 1 tail) sock).
Proof.
  induction more as [|d more IH]; intros fuel sock bufsize data tail Hs Hne Ht Hf.
  - destruct fuel as [|fuel]; [cbn in Hf; lia|]. cbn [util.drain joined foldr].
    rewrite append_nil_r. cbn in Hs. destruct tail as [|r rest].
    + unfold util.socket_recv, util.recv. rewrite Hs.
      destruct sock; cbn in *. by subst.
    + destruct (socket_recv_stop sock bufsize r rest Hs Ht) as (e & -> & ->).
      done.
  - destruct fuel as [|fuel]; [cbn in Hf; lia|]. cbn [util.drain].
    apply Forall_cons in Hne as [Hd Hne].
    rewrite (socket_recv_chunk sock bufsize d _ Hs Hd).
    rewrite (IH fuel _ bufsize (data +:+ d) tail); cbn in *; try done; [|lia].
    by rewrite append_assoc.
Qed.

(** X1.  When the first [recv] gives a chunk and further chunks follow up
    to an empty one, a [socket.error] or the end of what arrives,
    [socket_read] returns all these chunks in order as one string, takes
    the stopping [recv] off the socket and leaves what comes after it, and
    puts the timeout back. *)
Theorem socket_read_returns_the_chunks sock bufsize first (more : list bytes)
    tail fuel :
  util.sock_recv sock = (inr first :: (inr <$> more) ++ tail)%list →
  first ≠ EmptyString →
  Forall (λ d, d ≠ EmptyString) more →
  match tail with [] => True | r :: _ => stops r = true end →
  length more < fuel →
  util.socket_read fuel sock bufsize =
    Some (inr (first +:+ joined more), util.set_recv (drop 1 tail) sock).
Proof.
  intros Hs Hfirst Hmore Htail Hfuel. unfold util.socket_read.
  rewrite (socket_recv_chunk sock bufsize first _ Hs Hfirst).
  by rewrite (drain_chunks more fuel _ bufsize first tail).
Qed.

(** What a run of the loop leaves of the socket, however it ends. *)
Lemma drain_frame fuel : ∀ sock bufsize data r sock',
  util.drain fuel sock bufsize data = Some (r, sock') →
  (∃ k, sock' = util.set_recv (drop k (util.sock_recv sock)) sock)
  ∧ (data ≠ EmptyString → ∀ data', r = inr data' → data' ≠ EmptyString).
Proof.
  induction fuel as [|fuel IH]; intros sock bufsize data r sock'; [done|].
  cbn [util.drain].
  pose proof (socket_recv_frame sock bufsize) as Hframe. cbn zeta in Hframe.
  destruct (util.socket_recv sock bufsize) as [[e|more] sock1] eqn:Hrecv;
    cbn in Hframe; subst sock1.
  - destruct (isinstance e SocketError); intros [= <- <-];
      (split; [by exists 1|]); [by intros ? ? [= <-]|done].
  - intros [(k & ->) Hdata]%IH. split.
    + exists (k + 1). cbn. by rewrite drop_drop, (Nat.add_comm 1 k).
    + intros Hne. by apply Hdata, append_not_empty.
Qed.

(** X2.  Whatever arrives, when [socket_read] returns data the data is not
    empty, the timeout is the one the socket had, and the only thing that
    changed on the socket is that some of what [recv] had to give, at
    least one item, has been taken from the front. *)
Theorem socket_read_result fuel sock bufsize data sock' :
  util.socket_read fuel sock bufsize = Some (inr data, sock') →
  data ≠ EmptyString
  ∧ util.sock_timeout sock' = util.sock_timeout sock
  ∧ ∃ k, 0 < k ∧ sock' = util.set_recv (drop k (util.sock_recv sock)) sock.
Proof.
  unfold util.socket_read.
  pose proof (socket_recv_frame sock bufsize) as Hframe. cbn zeta in Hframe.
  destruct (util.socket_recv sock bufsize) as [[e|first] sock1] eqn:Hrecv;
    [done|]. cbn in Hframe. subst sock1.
  apply socket_recv_data in Hrecv.
  destruct (util.drain _ _ _ _) as [[[e|data'] sock2]|] eqn:Hdrain; try done.
  intros [= <- <-]. apply drain_frame in Hdrain as [(k & ->) Hdata].
  split; [by apply Hdata|]. split; [done|].
  exists (k + 1). split; [lia|]. cbn.
  by rewrite drop_drop, (Nat.add_comm 1 k).
Qed.

(** X4.  When the loop meets an exception that is not a [socket.error],
    the exception leaves [socket_read], the chunks read so far are lost,
    and the socket stays non-blocking: its timeout is the zero the
    function set, not the one it had. *)
Theorem socket_read_keeps_zero_timeout sock bufsize first (more : list bytes)
    e rest fuel :
  util.sock_recv sock = (inr first :: (inr <$> more) ++ inl e :: rest)%list →
  first ≠ EmptyString →
  Forall (λ d, d ≠ EmptyString) more →
  isinstance e SocketError = false →
  length more < fuel →
  util.socket_read fuel sock bufsize =
    Some (inl e,
          util.set_timeout (Some (QArith_base.Qmake 0 1))
            (util.set_recv rest sock)).
Proof.
  intros Hs Hfirst Hmore He Hfuel. unfold util.socket_read.
  rewrite (socket_recv_chunk sock bufsize first _ Hs Hfirst). cbn zeta.
  assert (∀ (more : list bytes) fuel sock data,
            util.sock_recv sock = ((inr <$> more) ++ inl e :: rest)%list →
            Forall (λ d, d ≠ EmptyString) more →
            length more < fuel →
            util.drain fuel sock bufsize data
            = Some (inl e, util.set_recv rest sock)) as Hloop.
  { clear -He. induction more as [|d more IH]; intros fuel sock data Hs Hne Hf;
      (destruct fuel as [|fuel]; [cbn in Hf; lia|]); cbn [util.drain].
    - unfold util.socket_recv, util.recv. rewrite Hs. cbn. by rewrite He.
    - apply Forall_cons in Hne as [Hd Hne].
      rewrite (socket_recv_chunk sock bufsize d _ Hs Hd).
      rewrite (IH fuel _ (data +:+ d)); cbn in *; [done..|lia]. }
  by rewrite (Hloop more fuel _ first).
Qed.

(** ** [rpc.py]: the socket transport *)

(** [socket_read] neither sends nor closes. *)
Lemma socket_read_frame fuel sock bufsize r sock' :
  util.socket_read fuel sock bufsize = Some (r, sock') →
  util.sock_closed sock' = util.sock_closed sock
  ∧ util.sock_sent sock' = util.sock_sent sock.
Proof.
  unfold util.socket_read.
  pose proof (socket_recv_frame sock bufsize) as Hframe. cbn zeta in Hframe.
  destruct (util.socket_recv sock bufsize) as [[e|first] sock1];
    cbn in Hframe; subst sock1; [by intros [= <- <-]|].
  destruct (util.drain _ _ _ _) as [[[e|data] sock2]|] eqn:Hdrain; [| |done];
    apply drain_frame in Hdrain as [(k & ->) _]; by intros [= <- <-].
Qed.

(** What [socket_read] returns is not empty. *)
Lemma socket_read_not_empty fuel sock bufsize data sock' :
  util.socket_read fuel sock bufsize = Some (inr data, sock') →
  data ≠ EmptyString.
Proof.
  unfold util.socket_read.
  destruct (util.socket_recv sock bufsize) as [[e|first] sock1] eqn:Hrecv;
    [done|]. apply socket_recv_data in Hrecv.
  destruct (util.drain _ _ _ _) as [[[e|data'] sock2]|] eqn:Hdrain; try done.
  intros [= <- <-]. by apply drain_frame in Hdrain as [_ Hdata]; apply Hdata.
Qed.

(** X5.  When [send_request] returns a reply, a connection had been made,
    the request is the one thing that was sent on it, the reply is not
    empty, and the socket has been closed. *)
Theorem send_request_closes_after_reply fuel connected data reply final :
  client.send_request fuel connected data = Some (inr reply, final) →
  ∃ sock sock',
    connected = inr sock ∧ final = Some sock'
    ∧ util.sock_closed sock' = true
    ∧ util.sock_sent sock' = (util.sock_sent sock ++ [data])%list
    ∧ reply ≠ EmptyString.
Proof.
  unfold client.send_request. destruct connected as [e|sock]; [done|].
  unfold util.send. destruct (util.sock_broken sock); [done|].
  destruct (util.socket_read _ _ _) as [[[e|data'] sock1]|] eqn:Hread; try done.
  intros [= <- <-]. exists sock, (util.close sock1).
  destruct (socket_read_frame _ _ _ _ _ Hread) as [_ Hsent].
  apply socket_read_not_empty in Hread as Hdata.
  repeat split; [|done]. cbn in Hsent |- *. by rewrite Hsent.
Qed.

(** X6.  When [send_request] fails after the connection was made, be it
    in [send] or in [socket_read], the socket is left as open as it was:
    [close] is not called. *)
Theorem send_request_leaves_socket_open fuel sock data e final :
  client.send_request fuel (inr sock) data = Some (inl e, final) →
  ∃ sock', final = Some sock'
           ∧ util.sock_closed sock' = util.sock_closed sock.
Proof.
  unfold client.send_request, util.send.
  destruct (util.sock_broken sock); [intros [= <- <-]; by eexists|].
  destruct (util.socket_read _ _ _) as [[[e'|data'] sock1]|] eqn:Hread; try done.
  intros [= <- <-]. destruct (socket_read_frame _ _ _ _ _ Hread) as [Hc _].
  by eexists.
Qed.

(** ** [rpc.py]: registering and dispatching *)

(** X7.  After [register_function] the function answers under the given
    name, or under its own [__name__] when no name or an empty one is
    given, whatever was registered under that name before: [dispatch]
    returns what the function returns.  Every other name is dispatched as
    before. *)
Theorem dispatch_after_register self f name args kwargs :
  let key :=
    match name with
    | Some (String c n) => String c n
    | _ => rpc.fn_name f
    end in
  (∀ v, rpc.fn_call f args kwargs = inr v →
     rpc.dispatch (rpc.register_function self f name) key args kwargs = inr v)
  ∧ (∀ method, method ≠ key →
       rpc.dispatch (rpc.register_function self f name) method args kwargs
       = rpc.dispatch self method args kwargs).
Proof.
  cbn zeta. split.
  - intros v Hv. unfold rpc.dispatch, rpc.register_function. cbn [rpc.funcs].
    assert (∀ key, <[key := f]> (rpc.funcs self) !! key = Some f) as Hkey
      by (intros; apply lookup_insert_eq).
    destruct name as [[|c n]|]; by rewrite Hkey, Hv.
  - intros method Hne. unfold rpc.dispatch, rpc.register_function.
    cbn [rpc.funcs].
    destruct name as [[|c n]|]; by rewrite lookup_insert_ne.
Qed.


(** ** [jsonrpc.py]: the serializer *)

(** What [encode] and [decode] make of a failure of [json]. *)
Lemma serializer_failure {A} e0 e :
  (if isinstance e0 ValueError
   then text ← exn_str e0; raise ParseError text else inl e0)
  = (inl e : res A) →
  (isinstance e0 ValueError = false ∧ e = e0)
  ∨ (isinstance e0 ValueError = true
     ∧ ∃ text, exn_str e0 = inr text ∧ e = Exn ParseError [VStr text])
  ∨ (isinstance e0 ValueError = true ∧ exn_str e0 = inl e
     ∧ (exn_type e = UnicodeEncodeError ∨ exn_type e = UnicodeDecodeError)).
Proof.
  destruct (isinstance e0 ValueError); [|intros [= <-]; by left].
  destruct (exn_str e0) as [e'|text] eqn:Hstr; intros [= <-]; right.
  - right. split; [done|]. split; [done|]. by apply exn_str_error in Hstr.
  - left. split; [done|]. by exists text.
Qed.

(** X9.  [JSONSerializer] turns the [ValueError]s of [json] into
    [ParseError]s with the same text and lets every other exception
    through.  The one [ValueError] that can leave [encode] or [decode] is
    the [UnicodeEncodeError] or [UnicodeDecodeError] that [str] raises
    when it cannot print the exception of [json]. *)
Theorem serializer_turns_ValueError_into_ParseError json_dumps json_loads e :
  let outcome (e0 : exn) :=
    (isinstance e0 ValueError = false ∧ e = e0)
    ∨ (isinstance e0 ValueError = true
       ∧ ∃ text, exn_str e0 = inr text ∧ e = Exn ParseError [VStr text])
    ∨ (isinstance e0 ValueError = true ∧ exn_str e0 = inl e
       ∧ (exn_type e = UnicodeEncodeError
          ∨ exn_type e = UnicodeDecodeError)) in
  (∀ data, rpc.decode (jsonrpc.JSONSerializer json_dumps json_loads) data
           = inl e →
     ∃ e0, json_loads data = inl e0 ∧ outcome e0
           ∧ (isinstance e ValueError = true → exn_str e0 = inl e))
  ∧ (∀ v, rpc.encode (jsonrpc.JSONSerializer json_dumps json_loads) v
          = inl e →
       ∃ e0, json_dumps v = inl e0 ∧ outcome e0
             ∧ (isinstance e ValueError = true → exn_str e0 = inl e)).
Proof.
  assert (∀ A e0,
            (if isinstance e0 ValueError
             then text ← exn_str e0; raise ParseError text else inl e0)
            = (inl e : res A) →
            isinstance e ValueError = true → exn_str e0 = inl e) as Hvalue.
  { intros A e0 H He. apply serializer_failure in H
      as [[Hv <-]|[(_ & text & _ & ->)|(_ & H & _)]]; [congruence|done..]. }
  cbn zeta. split; intros x;
    cbn [rpc.decode rpc.encode jsonrpc.JSONSerializer];
    [destruct (json_loads x) as [e0|?]|destruct (json_dumps x) as [e0|?]];
    try done; intros H; exists e0; (split; [done|]);
    (split; [exact (serializer_failure _ _ H)|exact (Hvalue _ _ H)]).
Qed.

(** ** [jsonrpc.py]: validating requests and responses *)

Section validation.
Variable json_dumps : value → res bytes.
Variable json_loads : bytes → res value.


(** X11.  An accepted request comes back with the decoded mapping itself,
    its method name, and its [params] as positional arguments or as named
    ones, never as both: a mapping of [params] gives named arguments and
    no positional ones, anything else gives positional arguments and no
    named ones, and without [params] both are empty.  Keywords that were
    [unicode] are ASCII. *)
Theorem unmarshall_request_arguments data request' method args kwargs :
  jsonrpc.unmarshall_request json_dumps json_loads data
    = inr (request', method, args, kwargs) →
  (∃ keys, json_loads data = inr (VDict keys request'))
  ∧ request' !! "method" ≫= as_text = Some method
  ∧ (kwargs ≠ ∅ → args = VTuple [])
  ∧ match request' !! "params" with
    | None => args = VTuple [] ∧ kwargs = ∅
    | Some (VDict keys named) =>
        args = VTuple [] ∧ kwargs = named
        ∧ (keys = KUnicode → map_Forall (λ k _, is_ascii k = true) kwargs)
    | Some params => args = params ∧ kwargs = ∅
    end.
Proof.
  unfold jsonrpc.unmarshall_request. cbn [rpc.decode jsonrpc.serializer jsonrpc.JSONSerializer].
  destruct (json_loads data) as [e|[| | | | | | |keys request]] eqn:Hload;
    try done;
    [destruct (isinstance e ValueError); [by destruct (exn_str e)|done]|].
  cbn [mbind res_bind].
  destruct (request !! "jsonrpc") as [version|]; [|done].
  destruct (str_eq version "2.0"); [|done]. cbn [mbind res_bind].
  destruct (request !! "method") as [[| | |m|m| | |]|] eqn:Hm; try done;
    cbn [mbind res_bind];
    (destruct (request !! "params") as [[| | | | | | |keys' named]|] eqn:Hp;
     cbn;
     try (intros [= <- <- <- <-]; rewrite ?Hp, ?Hm; cbn;
          repeat split; try done; by eexists);
     destruct (jsonrpc.dict_of_items keys' (map_to_list named)) as [e|kw]
       eqn:Hd; [done|]; cbn; intros [= <- <- <- <-];
     apply dict_of_items_result in Hd as [-> Hall];
     rewrite ?Hp, ?Hm; cbn; repeat split; try done; by eexists).
Qed.

(** X12.  A decoded mapping without an [error] member is accepted as a
    response exactly when its [jsonrpc] member equals ['2.0'] and it has
    an [id] and a [result]; the call then returns the mapping and that
    result, and otherwise raises an [InvalidResponseError]. *)
Theorem unmarshall_response_validates data keys (response : dict) :
  json_loads data = inr (VDict keys response) →
  response !! "error" = None →
  (∀ r, jsonrpc.unmarshall_response json_dumps json_loads data = inr r ↔
     ∃ version,
       response !! "jsonrpc" = Some version ∧ str_eq version "2.0" = true
       ∧ is_Some (response !! "id")
       ∧ response !! "result" = Some r.2 ∧ r.1 = response)
  ∧ (∀ e, jsonrpc.unmarshall_response json_dumps json_loads data = inl e →
       exn_type e = InvalidResponseError).
Proof.
  intros Hload Herr. unfold jsonrpc.unmarshall_response.
  rewrite (decode_loads _ _ _ _ Hload). cbn [mbind res_bind]. rewrite Herr.
  destruct (response !! "jsonrpc") as [version|]; cycle 1.
  { split; [split|]; [done|by intros (? & ? & _)|by intros e [= <-]]. }
  destruct (str_eq version "2.0") eqn:Hv; cycle 1.
  { split; [split|]; [done| |by intros e [= <-]].
    intros (? & [= <-] & ? & _). congruence. }
  cbn [mbind res_bind]. case_bool_decide as Hid.
  { split; [split|]; [done| |by intros e [= <-]].
    intros (? & _ & _ & [? ?] & _). congruence. }
  destruct (response !! "result") as [result|]; cycle 1.
  { split; [split|]; [done|by intros (? & _ & _ & _ & ? & _)|by intros e [= <-]]. }
  split; [|done]. intros [response' result']. cbn. split.
  - intros [= <- <-]. exists version. repeat split; [done|].
    by apply not_eq_None_Some.
  - by intros (? & _ & _ & _ & [= <-] & <-).
Qed.

(** A non-mapping for a response. *)
Lemma unmarshall_response_non_mapping data v :
  json_loads data = inr v → (∀ keys m, v ≠ VDict keys m) →
  jsonrpc.unmarshall_response json_dumps json_loads data
    = inl (getitem_type_error v).
Proof.
  intros Hload Hv. unfold jsonrpc.unmarshall_response.
  rewrite (decode_loads _ _ _ _ Hload). cbn [mbind res_bind].
  destruct v; try done. by destruct (Hv keys m).
Qed.

End validation.


(** X14.  The two tables are each other's inverse: a class has a code in
    [ERRORS] exactly when [EXCEPTIONS] maps that code to the class. *)
Theorem ERRORS_and_EXCEPTIONS_agree (c : pyclass) (z : Z) :
  (∃ l d, jsonrpc.ERRORS !! c = Some l
          ∧ jsonrpc.ERRORS_loaded !! l = Some d
          ∧ d !! "code" = Some (VInt z))
  ↔ jsonrpc.EXCEPTIONS !! z = Some c.
Proof.
  split.
  - intros (l & d & Hl & Hd & Hz).
    destruct c; try (by vm_compute in Hl); injection Hl as <-;
      injection Hd as <-; injection Hz as <-; reflexivity.
  - intros Hz. apply elem_of_map_to_list in Hz.
    let l := eval vm_compute in (map_to_list jsonrpc.EXCEPTIONS) in
    change (map_to_list jsonrpc.EXCEPTIONS) with l in Hz.
    repeat (apply elem_of_cons in Hz as [[= -> ->]|Hz];
            [eexists _, _; repeat split; reflexivity|]).
    by apply elem_of_nil in Hz.
Qed.

(** ** [jsonrpc.py]: responses there and back *)

Section responses.
Variable json_dumps : value → res bytes.
Variable json_loads : bytes → res value.

Lemma due_not_notification (request : option dict) :
  due request →
  from_option dict_truth false request
  && negb (from_option (λ r, bool_decide (is_Some (r !! "id"))) false request)
  = false.
Proof.
  destruct request as [r|]; [|done]. cbn. intros [->|Hid]; [done|].
  by rewrite (bool_decide_eq_true_2 _ Hid), andb_false_r.
Qed.

Lemma due_id (request : option dict) :
  due request →
  match request with
  | Some r => if dict_truth r then getitem (VDict KStr r) "id" else inr VNone
  | None => inr VNone
  end = inr (echoed_id request).
Proof.
  destruct request as [r|]; [|done]. cbn. intros [->|[id Hid]]; [done|].
  assert (dict_truth r = true) as ->.
  { apply dict_truth_true. intros ->. by rewrite lookup_empty in Hid. }
  by rewrite Hid.
Qed.

(** The answer to a result. *)
Lemma marshall_response_result request result h :
  due request →
  jsonrpc.marshall_response json_dumps json_loads request result None h =
    (Some <$> rpc.encode (jsonrpc.serializer json_dumps json_loads)
                (VDict KStr (result_response (echoed_id request) result)),
     h).
Proof.
  intros Hdue. unfold jsonrpc.marshall_response.
  by rewrite (due_not_notification _ Hdue), (due_id _ Hdue).
Qed.

(** The answer to an error of the table. *)
Lemma marshall_response_error request result exc h l members :
  due request →
  jsonrpc.ERRORS !! exn_type exc = Some l →
  h !! l = Some members →
  jsonrpc.marshall_response json_dumps json_loads request result (Some exc) h =
    (Some <$> rpc.encode (jsonrpc.serializer json_dumps json_loads)
                (VDict KStr (error_response (echoed_id request)
                          (VDict KStr (error_object members exc)))),
     <[l := error_object members exc]> h).
Proof.
  intros Hdue Hl Hh. unfold jsonrpc.marshall_response.
  rewrite (due_not_notification _ Hdue), (due_id _ Hdue).
  rewrite (deref_marshalled exc h l members Hl Hh). cbn.
  by rewrite lookup_insert_eq.
Qed.

(** The same once [json.dumps] has written the bytes. *)
Lemma marshall_response_result_bytes request result h data :
  due request →
  json_dumps (VDict KStr (result_response (echoed_id request) result)) = inr data →
  jsonrpc.marshall_response json_dumps json_loads request result None h
  = (inr (Some data), h).
Proof.
  intros Hdue Hdumps. rewrite (marshall_response_result _ _ _ Hdue).
  by rewrite (encode_dumps _ _ _ _ Hdumps).
Qed.

Lemma marshall_response_error_bytes request result exc h l members data :
  due request →
  jsonrpc.ERRORS !! exn_type exc = Some l →
  h !! l = Some members →
  json_dumps (VDict KStr (error_response (echoed_id request)
                       (VDict KStr (error_object members exc)))) = inr data →
  jsonrpc.marshall_response json_dumps json_loads request result (Some exc) h
  = (inr (Some data), <[l := error_object members exc]> h).
Proof.
  intros Hdue Hl Hh Hdumps.
  rewrite (marshall_response_error _ _ _ _ _ _ Hdue Hl Hh).
  by rewrite (encode_dumps _ _ _ _ Hdumps).
Qed.

(** Reading a result response as [json] gives it back. *)
Lemma unmarshall_result_response data id result :
  json_loads data = inr (json_image (VDict KStr (result_response id result))) →
  jsonrpc.unmarshall_response json_dumps json_loads data
    = inr (json_image <$> result_response id result, json_image result).
Proof.
  intros Hload. unfold jsonrpc.unmarshall_response.
  rewrite (decode_loads _ _ _ _ Hload). cbn [mbind res_bind json_image].
  unfold result_response. rewrite !fmap_insert, map_fmap_singleton.
  by simplify_map_eq.
Qed.

(** X15.  A result survives the way back: when a response is due and the
    serializer encodes the response and reads the bytes back as what was
    written, [marshall_response] returns these bytes and leaves the error
    table as it was, and [unmarshall_response] returns from them the
    result as read back, in the response as read back, under the
    request's [id] (null without a request). *)
Theorem response_round_trip request result h data :
  due request →
  json_dumps (VDict KStr (result_response (echoed_id request) result)) = inr data →
  json_loads data
    = inr (json_image (VDict KStr (result_response (echoed_id request) result))) →
  jsonrpc.marshall_response json_dumps json_loads request result None h
    = (inr (Some data), h)
  ∧ jsonrpc.unmarshall_response json_dumps json_loads data
    = inr (json_image <$> result_response (echoed_id request) result,
           json_image result)
  ∧ (json_image <$> result_response (echoed_id request) result) !! "id"
    = Some (json_image (echoed_id request)).
Proof.
  intros Hdue Hdumps Hload. split; [|split].
  - by apply marshall_response_result_bytes.
  - by apply unmarshall_result_response.
  - unfold result_response. rewrite lookup_fmap. by simplify_map_eq.
Qed.

(** Reading an error response whose error object holds a code of the
    table, a [unicode] message and data. *)
Lemma unmarshall_error_response_known data keys (response : dict) keys'
    (members : dict) version z c message detail :
  json_loads data = inr (VDict keys response) →
  response !! "jsonrpc" = Some version →
  str_eq version "2.0" = true →
  is_Some (response !! "id") →
  response !! "error" = Some (VDict keys' members) →
  members !! "code" = Some (VInt z) →
  jsonrpc.EXCEPTIONS !! z = Some c →
  members !! "message" = Some (VUnicode message) →
  members !! "data" = Some detail →
  (∀ s, detail ≠ VStr s) →
  jsonrpc.unmarshall_response json_dumps json_loads data
    = inl (Exn c [VUnicode (message +:+ ": " +:+ text_of detail)]).
Proof.
  intros Hload Hv Hversion Hid He Hc Hz Hm Hd Hdetail.
  rewrite (unmarshall_error_response _ _ _ _ _ _ _ Hload Hv Hversion Hid He).
  rewrite (unmarshall_error_members _ _ _ _ _ Hc Hm Hd).
  rewrite py_format_message.
  assert (unicode_piece (Arg detail) = inr (text_of detail)) as ->
    by (destruct detail; try done; by destruct (Hdetail s)).
  unfold jsonrpc.EXCEPTIONS_getitem. cbn. by rewrite Hz.
Qed.

(** The error object of a class of the table, as the serializer reads it
    back. *)
Lemma read_error_object h c l members exc :
  table_intact h →
  jsonrpc.ERRORS !! c = Some l →
  h !! l = Some members →
  ∃ z,
    (json_image <$> error_object members exc) !! "code" = Some (VInt z)
    ∧ jsonrpc.EXCEPTIONS !! z = Some c
    ∧ (json_image <$> error_object members exc) !! "message"
      = Some (VUnicode (table_message c))
    ∧ (json_image <$> error_object members exc) !! "data"
      = Some (json_image (jsonrpc.args_or_None (exn_args exc))).
Proof.
  intros Hh Hl Hm.
  destruct (table_entry c) as (l' & d0 & z & Hl' & Hd0 & Hcode & Hmsg & Hz);
    [by eexists|].
  assert (l' = l) as -> by congruence.
  destruct (Hh l d0 Hd0) as (d & Hd & Hc & Hmes).
  assert (d = members) as -> by congruence.
  exists z. unfold error_object. rewrite !lookup_fmap.
  rewrite !lookup_insert_ne, lookup_insert_eq by done.
  by rewrite Hc, Hcode, Hmes, Hmsg.
Qed.

(** What [json] reads for the arguments of an exception is no [str]. *)
Lemma args_image_not_str args s :
  json_image (jsonrpc.args_or_None args) ≠ VStr s.
Proof. by destruct args. Qed.

(** Reading back the error response of an exception of the table. *)
Lemma unmarshall_marshalled_error data id exc h l members :
  table_intact h →
  jsonrpc.ERRORS !! exn_type exc = Some l →
  h !! l = Some members →
  json_loads data
    = inr (json_image (VDict KStr (error_response id
                                (VDict KStr (error_object members exc))))) →
  jsonrpc.unmarshall_response json_dumps json_loads data
    = inl (Exn (exn_type exc)
             [VUnicode
                (table_message (exn_type exc) +:+ ": "
                 +:+ text_of (json_image
                                (jsonrpc.args_or_None (exn_args exc))))]).
Proof.
  intros Hh Hl Hm Hload.
  destruct (read_error_object h _ l members exc Hh Hl Hm)
    as (z & Hcode & Hz & Hmsg & Hdata).
  apply (unmarshall_error_response_known data KUnicode
           (json_image
              <$> error_response id (VDict KStr (error_object members exc)))
           KUnicode (json_image <$> error_object members exc)
           (VUnicode "2.0") z _ _ _ Hload); try done;
    try (unfold error_response; rewrite lookup_fmap; by simplify_map_eq).
  intros s. apply args_image_not_str.
Qed.

(** X16.  An error of the table survives the way back as an exception of
    its class: when a response is due and the serializer encodes the
    response and reads the bytes back as what was written,
    [marshall_response] returns these bytes, with the error's arguments
    put into the table's object, and [unmarshall_response] raises from
    them the error's class with the table's message, a colon and the
    arguments as read back (a list, with their [str] text as [unicode]),
    or [None] for an error without arguments. *)
Theorem error_response_round_trip request result exc h l members data :
  due request →
  table_intact h →
  jsonrpc.ERRORS !! exn_type exc = Some l →
  h !! l = Some members →
  json_dumps (VDict KStr (error_response (echoed_id request)
                       (VDict KStr (error_object members exc)))) = inr data →
  json_loads data
    = inr (json_image (VDict KStr (error_response (echoed_id request)
                                (VDict KStr (error_object members exc))))) →
  jsonrpc.marshall_response json_dumps json_loads request result (Some exc) h
    = (inr (Some data), <[l := error_object members exc]> h)
  ∧ jsonrpc.unmarshall_response json_dumps json_loads data
    = inl (Exn (exn_type exc)
             [VUnicode
                (table_message (exn_type exc) +:+ ": "
                 +:+ text_of (json_image
                                (jsonrpc.args_or_None (exn_args exc))))]).
Proof.
  intros Hdue Hh Hl Hm Hdumps Hload. split.
  - by apply marshall_response_error_bytes.
  - by apply (unmarshall_marshalled_error data (echoed_id request) exc h l
                members).
Qed.

End responses.

(** ** The handler with the JSON-RPC protocol *)

Section serving.
Variable json_dumps : value → res bytes.
Variable json_loads : bytes → res value.
Variable d : rpc.Dispatcher.

Abbreviation server := (jsonrpc.TCPServer json_dumps json_loads d).

Lemma respond_bytes {σ} (data : bytes) (s : σ) :
  data ≠ EmptyString → rpc.respond (inr (Some data), s) = (rpc.Sent data, s).
Proof. by destruct data. Qed.

(** The handler when the request unmarshals and the call returns. *)
Lemma handle_call_returns data request method args kwargs result h :
  jsonrpc.unmarshall_request json_dumps json_loads data
    = inr (request, method, args, kwargs) →
  rpc.call_dispatch d method args kwargs = inr result →
  rpc.handle server (inr data) h =
    rpc.respond
      (jsonrpc.marshall_response json_dumps json_loads (Some request) result
         None h).
Proof.
  intros Hun Hcall. unfold rpc.handle.
  change (rpc.unmarshall_request (rpc.protocol _) data)
    with (jsonrpc.unmarshall_request json_dumps json_loads data).
  rewrite Hun. cbn [rpc.dispatcher jsonrpc.TCPServer]. by rewrite Hcall.
Qed.

(** The handler when the request unmarshals and the call raises. *)
Lemma handle_call_raises data request method args kwargs e h :
  jsonrpc.unmarshall_request json_dumps json_loads data
    = inr (request, method, args, kwargs) →
  rpc.call_dispatch d method args kwargs = inl e →
  rpc.handle server (inr data) h =
    if isinstance e Error
    then rpc.respond
           (jsonrpc.marshall_response json_dumps json_loads (Some request)
              VNone (Some e) h)
    else (rpc.Aborted e, h).
Proof.
  intros Hun Hcall. unfold rpc.handle.
  change (rpc.unmarshall_request (rpc.protocol _) data)
    with (jsonrpc.unmarshall_request json_dumps json_loads data).
  rewrite Hun. cbn [rpc.dispatcher jsonrpc.TCPServer]. by rewrite Hcall.
Qed.

(** A call that reaches a registered function. *)
Lemma call_dispatch_registered method f (args : value) positional kwargs :
  rpc.star_args args = inr positional →
  kwargs !! "self" = None →
  kwargs !! "method" = None →
  rpc.funcs d !! method = Some f →
  rpc.call_dispatch d method args kwargs = rpc.dispatch d method positional kwargs.
Proof.
  intros Hargs Hself Hmethod Hf. unfold rpc.call_dispatch.
  rewrite Hargs. cbn [mbind res_bind].
  by rewrite !bool_decide_eq_false_2
    by (rewrite ?Hself, ?Hmethod; by intros [? ?]).
Qed.

(** X17.  Bytes that [json] cannot read are answered: when [json.loads]
    raises a [ValueError] that [str] prints as [text], and [json.dumps]
    writes the bytes [b] for the response to [ParseError(text)] under a
    null [id], the handler sends [b], and the table's object for
    [ParseError] now holds that text as its data. *)
Theorem handle_answers_malformed_bytes data e0 text l members h b :
  json_loads data = inl e0 →
  isinstance e0 ValueError = true →
  exn_str e0 = inr text →
  jsonrpc.ERRORS !! ParseError = Some l →
  h !! l = Some members →
  let exc := Exn ParseError [VStr text] in
  json_dumps (VDict KStr (error_response VNone (VDict KStr (error_object members exc))))
    = inr b →
  b ≠ EmptyString →
  rpc.handle server (inr data) h
    = (rpc.Sent b, <[l := error_object members exc]> h)
  ∧ (<[l := error_object members exc]> h) !! l
    ≫= (.!! "data") = Some (VTuple [VStr text]).
Proof.
  intros Hload Hv Hstr Hl Hh exc Hdumps Hb. split.
  - unfold rpc.handle.
    change (rpc.unmarshall_request (rpc.protocol _) data)
      with (jsonrpc.unmarshall_request json_dumps json_loads data).
    unfold jsonrpc.unmarshall_request.
    cbn [rpc.decode jsonrpc.serializer jsonrpc.JSONSerializer].
    rewrite Hload, Hv, Hstr. cbn [mbind res_bind raise].
    change (rpc.marshall_response (rpc.protocol _))
      with (jsonrpc.marshall_response json_dumps json_loads).
    change (isinstance (Exn ParseError [VStr text]) Error) with true.
    cbn match.
    rewrite (marshall_response_error_bytes _ _ None VNone exc h l members b);
      try done.
    by apply respond_bytes.
  - rewrite lookup_insert_eq. cbn. unfold error_object.
    by rewrite lookup_insert_eq.
Qed.

(** X18.  A request with an [id] for a registered function that returns:
    when [json.dumps] writes the bytes [b] for the response made of that
    [id] and the function's result, the handler sends [b], and the error
    table is as it was. *)
Theorem handle_serves_call data request method f args positional kwargs id
    result h b :
  jsonrpc.unmarshall_request json_dumps json_loads data
    = inr (request, method, args, kwargs) →
  request !! "id" = Some id →
  rpc.funcs d !! method = Some f →
  rpc.star_args args = inr positional →
  kwargs !! "self" = None →
  kwargs !! "method" = None →
  rpc.fn_call f positional kwargs = inr result →
  json_dumps (VDict KStr (result_response id result)) = inr b →
  b ≠ EmptyString →
  rpc.handle server (inr data) h = (rpc.Sent b, h).
Proof.
  intros Hun Hid Hf Hargs Hself Hmethod Hcall Hdumps Hb.
  rewrite (handle_call_returns _ _ _ _ _ result h Hun); cycle 1.
  { rewrite (call_dispatch_registered _ f _ positional) by done.
    unfold rpc.dispatch. by rewrite Hf, Hcall. }
  rewrite (marshall_response_result_bytes _ _ _ _ _ b);
    [by apply respond_bytes|right; by eexists|].
  unfold echoed_id. cbn. by rewrite Hid.
Qed.

(** What an accepted request holds. *)
Lemma unmarshall_request_accepted data request method args kwargs :
  jsonrpc.unmarshall_request json_dumps json_loads data
    = inr (request, method, args, kwargs) →
  is_Some (request !! "jsonrpc").
Proof.
  unfold jsonrpc.unmarshall_request.
  destruct (rpc.decode _ data) as [e|[| | | | | | |keys request']]; try done.
  cbn [mbind res_bind].
  destruct (request' !! "jsonrpc") as [version|] eqn:Hv; [|done].
  destruct (str_eq version "2.0"); [|done]. cbn [mbind res_bind].
  destruct (request' !! "method") as [[| | |m|m| | |]|]; try done;
    cbn [mbind res_bind];
    (destruct (default (VTuple []) (request' !! "params"));
     try (intros [= <- _ _ _]; by rewrite Hv);
     destruct (jsonrpc.dict_of_items _); [done|];
     intros [= <- _ _ _]; by rewrite Hv).
Qed.

(** X19.  A request without an [id] is never answered: whatever the
    method and whatever the call does, be it an error of the [Error]
    family, the handler sends nothing and leaves the error table as it
    was. *)
Theorem handle_never_answers_notification data request method args kwargs h :
  jsonrpc.unmarshall_request json_dumps json_loads data
    = inr (request, method, args, kwargs) →
  request !! "id" = None →
  (rpc.handle server (inr data) h = (rpc.Silent, h)
   ∨ ∃ e, rpc.handle server (inr data) h = (rpc.Aborted e, h)
          ∧ isinstance e Error = false
          ∧ rpc.call_dispatch d method args kwargs = inl e).
Proof.
  intros Hun Hid.
  assert (request ≠ ∅) as Hne.
  { intros ->. apply unmarshall_request_accepted in Hun as [? Hv].
    by rewrite lookup_empty in Hv. }
  destruct (rpc.call_dispatch d method args kwargs) as [e|result] eqn:Hcall.
  - rewrite (handle_call_raises _ _ _ _ _ e h Hun Hcall).
    destruct (isinstance e Error) eqn:He; [left|right; by exists e].
    unfold jsonrpc.marshall_response. cbn [from_option].
    apply dict_truth_true in Hne. rewrite Hne, Hid.
    by rewrite bool_decide_eq_false_2 by (by intros [? ?]).
  - left. rewrite (handle_call_returns _ _ _ _ _ result h Hun Hcall).
    unfold jsonrpc.marshall_response. cbn [from_option].
    apply dict_truth_true in Hne. rewrite Hne, Hid.
    by rewrite bool_decide_eq_false_2 by (by intros [? ?]).
Qed.

End serving.

(** ** [rpc.py]: the proxy *)

Section calling.
Context {τ : Type}.
Variable json_dumps : value → res bytes.
Variable json_loads : bytes → res value.
Variable transport : client.Transport τ.

Abbreviation protocol := (jsonrpc.JSONRPCProtocol json_dumps json_loads).

(** Keywords that none of the calls on the way refuses. *)
Lemma bind_keywords_free function names (kwargs : dict) :
  Forall (λ name, kwargs !! name = None) names →
  client.bind_keywords function names kwargs = inr ().
Proof.
  intros Hnames. unfold client.bind_keywords.
  assert (List.filter (λ name, bool_decide (is_Some (kwargs !! name))) names
          = []) as ->; [|done].
  induction Hnames as [|name names Hname _ IH]; [done|]. cbn.
  by rewrite bool_decide_eq_false_2 by (rewrite Hname; by intros [? ?]).
Qed.

Lemma bind_keywords_refused function names (kwargs : dict) :
  Exists (λ name, is_Some (kwargs !! name)) names →
  ∃ e, client.bind_keywords function names kwargs = inl e
       ∧ exn_type e = TypeError.
Proof.
  intros Hnames. unfold client.bind_keywords.
  destruct (List.filter _ names) as [|name rest] eqn:Hfilter; [|by eexists].
  exfalso. induction Hnames as [name names Hname|name names _ IH].
  - cbn in Hfilter. by rewrite bool_decide_eq_true_2 in Hfilter.
  - cbn in Hfilter. destruct (bool_decide _); [done|by apply IH].
Qed.

Lemma bound_names_free (kwargs : dict) :
  Forall (λ key, kwargs !! key = None) bound_names →
  kwargs !! "self" = None ∧ kwargs !! "name" = None
  ∧ kwargs !! "method" = None.
Proof.
  unfold bound_names. intros H.
  apply Forall_cons in H as [? H]. apply Forall_cons in H as [? H].
  by apply Forall_cons in H as [? H].
Qed.

Lemma proxy_call_bound name args kwargs t :
  Forall (λ key, kwargs !! key = None) bound_names →
  client.FunctionProxy_call protocol transport name args kwargs t =
    match jsonrpc.marshall_request json_dumps json_loads name args kwargs with
    | inl e => (inl e, t)
    | inr request =>
        match transport request t with
        | (inl e, t) => (inl e, t)
        | (inr EmptyString, t) => (inr VNone, t)
        | (inr data, t) =>
            (snd <$> jsonrpc.unmarshall_response json_dumps json_loads data, t)
        end
    end.
Proof.
  intros (Hself & Hname & Hmethod)%bound_names_free.
  unfold client.FunctionProxy_call, client.remote_call.
  rewrite !bind_keywords_free by (repeat constructor; done).
  done.
Qed.

(** X20.  A call that is refused is refused before anything is sent.  A
    keyword named [self], [name] or [method] collides with a parameter of
    [__call__], [__remote_call] or [marshall_request] and raises
    [TypeError]; without such a keyword, a call with both positional and
    named arguments raises [ProtocolError].  The transport is not used in
    either case. *)
Theorem proxy_refuses_before_sending name args kwargs t :
  (Exists (λ key, is_Some (kwargs !! key)) bound_names →
   ∃ e, client.FunctionProxy_call protocol transport name args kwargs t
        = (inl e, t)
        ∧ exn_type e = TypeError)
  ∧ (Forall (λ key, kwargs !! key = None) bound_names →
     args ≠ [] → kwargs ≠ ∅ →
     client.FunctionProxy_call protocol transport name args kwargs t =
       (raise ProtocolError "Cannot use both positional and keyword arguments",
        t)).
Proof.
  split.
  - intros Hbound. unfold client.FunctionProxy_call, client.remote_call.
    destruct (kwargs !! "self") as [v|] eqn:Hself.
    { destruct (bind_keywords_refused "__call__" ["self"] kwargs)
        as (e & -> & Hty); [constructor; by rewrite Hself|by exists e]. }
    rewrite (bind_keywords_free "__call__") by (by repeat constructor).
    cbn [mbind res_bind].
    destruct (kwargs !! "name") as [v|] eqn:Hname.
    { destruct (bind_keywords_refused "__remote_call" ["self"; "name"] kwargs)
        as (e & -> & Hty);
        [apply Exists_cons_tl; constructor; by rewrite Hname|by exists e]. }
    rewrite (bind_keywords_free "__remote_call") by (by repeat constructor).
    destruct (bind_keywords_refused "marshall_request" ["self"; "method"]
                kwargs) as (e & -> & Hty); [|by exists e].
    apply Exists_cons_tl. constructor.
    unfold bound_names in Hbound.
    apply Exists_cons in Hbound as [[? Hx]|Hbound]; [congruence|].
    apply Exists_cons in Hbound as [[? Hx]|Hbound]; [congruence|].
    apply Exists_cons in Hbound as [Hx|Hbound]; [done|].
    by apply Exists_nil in Hbound.
  - intros Hfree Ha Hk. rewrite (proxy_call_bound _ _ _ _ Hfree).
    by rewrite (marshall_request_mixed_arguments _ _ _ _ _ Ha Hk).
Qed.

Variable d : rpc.Dispatcher.
Abbreviation server := (jsonrpc.TCPServer json_dumps json_loads d).





End calling.

(** ** The error table while the server runs *)

(** X23.  Whatever a run of the handler reads and does, every class of the
    table still has its object afterwards, with the code that
    [EXCEPTIONS] maps back to the class and with the message it was loaded
    with: the handler only ever changes the [data] members. *)
Theorem handle_keeps_codes_and_messages json_dumps json_loads d read h c l :
  table_intact h →
  jsonrpc.ERRORS !! c = Some l →
  let h' :=
    (rpc.handle (jsonrpc.TCPServer json_dumps json_loads d) read h).2 in
  table_intact h'
  ∧ ∃ members z,
      h' !! l = Some members
      ∧ members !! "code" = Some (VInt z)
      ∧ jsonrpc.EXCEPTIONS !! z = Some c
      ∧ members !! "message" = Some (VStr (table_message c)).
Proof.
  intros Hh Hl. cbn zeta.
  pose proof (table_intact_handle json_dumps json_loads d read h Hh) as Hh'.
  split; [done|].
  destruct (table_entry c) as (l' & d0 & z & Hl' & Hd0 & Hcode & Hmsg & Hz);
    [by eexists|].
  assert (l' = l) as -> by congruence.
  destruct (Hh' l d0 Hd0) as (members & Hm & Hc & Hmes).
  exists members, z. by rewrite Hc, Hmes.
Qed.

(** * The further properties at concrete inputs *)

(** Two chunks, then the peer closes; what is scripted behind stays. *)
Lemma socket_read_returns_the_chunks_witness :
  util.socket_read 2 two_chunks 4096 =
    Some (inr "{1: 2}", util.set_recv [inr "late"] two_chunks).
Proof.
  apply (socket_read_returns_the_chunks two_chunks 4096 "{1: " ["2}"]
           [inr EmptyString; inr "late"] 2).
  - reflexivity.
  - intros H. discriminate H.
  - repeat constructor; intros H; discriminate H.
  - reflexivity.
  - cbn. lia.
Defined.

Lemma socket_read_result_witness :
  "{1: 2}" ≠ EmptyString
  ∧ util.sock_timeout (util.set_recv [inr "late"] two_chunks)
    = util.sock_timeout two_chunks
  ∧ ∃ k, 0 < k
         ∧ util.set_recv [inr "late"] two_chunks
           = util.set_recv (drop k (util.sock_recv two_chunks)) two_chunks.
Proof.
  apply (socket_read_result 5 two_chunks 4096).
  vm_compute. reflexivity.
Defined.

Lemma socket_read_keeps_zero_timeout_witness :
  util.socket_read 1 interrupted 4096 =
    Some (inl (Exn KeyboardInterrupt []),
          util.set_timeout (Some (QArith_base.Qmake 0 1))
            (util.set_recv [inr "2}"] interrupted)).
Proof.
  apply (socket_read_keeps_zero_timeout interrupted 4096 "{1: " []
           (Exn KeyboardInterrupt []) [inr "2}"] 1).
  - reflexivity.
  - intros H. discriminate H.
  - constructor.
  - reflexivity.
  - cbn. lia.
Defined.

Lemma send_request_closes_after_reply_witness :
  ∃ sock sock',
    (inr two_chunks : res util.socket) = inr sock
    ∧ Some (util.close (util.set_recv [inr "late"]
                          (util.send two_chunks "ping").2)) = Some sock'
    ∧ util.sock_closed sock' = true
    ∧ util.sock_sent sock' = (util.sock_sent sock ++ ["ping"])%list
    ∧ "{1: 2}" ≠ EmptyString.
Proof.
  apply (send_request_closes_after_reply 4 (inr two_chunks) "ping").
  vm_compute. reflexivity.
Defined.

Lemma send_request_leaves_socket_open_witness :
  ∃ sock', Some (util.set_recv [] (util.send hung_up "ping").2) = Some sock'
           ∧ util.sock_closed sock' = util.sock_closed hung_up.
Proof.
  apply (send_request_leaves_socket_open 4 hung_up "ping"
           (Exn SocketError [])).
  vm_compute. reflexivity.
Defined.



Lemma unmarshall_request_arguments_witness :
  (∃ keys, json.loads (written (VDict KUnicode notify_add))
           = inr (VDict keys notify_add))
  ∧ notify_add !! "method" ≫= as_text = Some "add"
  ∧ ((∅ : dict) ≠ ∅ → VList [VInt 2; VInt 3] = VTuple [])
  ∧ match notify_add !! "params" with
    | None => VList [VInt 2; VInt 3] = VTuple [] ∧ (∅ : dict) = ∅
    | Some (VDict keys named) =>
        VList [VInt 2; VInt 3] = VTuple [] ∧ ∅ = named
        ∧ (keys = KUnicode → map_Forall (λ k _, is_ascii k = true) (∅ : dict))
    | Some params => VList [VInt 2; VInt 3] = params ∧ (∅ : dict) = ∅
    end.
Proof.
  apply (unmarshall_request_arguments json.dumps json.loads
           (written (VDict KUnicode notify_add)) notify_add "add").
  vm_compute. reflexivity.
Defined.

Lemma unmarshall_response_validates_witness :
  jsonrpc.unmarshall_response json.dumps json.loads add_reply
    = inr (json_image <$> result_response (VInt 0) (VInt 5), VInt 5).
Proof.
  apply (unmarshall_response_validates json.dumps json.loads add_reply
           KUnicode (json_image <$> result_response (VInt 0) (VInt 5))).
  - vm_compute. reflexivity.
  - vm_compute. reflexivity.
  - exists (VUnicode "2.0"). cbn [fst snd].
    repeat split; try (vm_compute; reflexivity).
    exists (VInt 0). vm_compute. reflexivity.
Defined.

Lemma response_round_trip_witness :
  jsonrpc.marshall_response json.dumps json.loads (Some {[ "id" := VInt 0 ]})
    (VInt 5) None jsonrpc.ERRORS_loaded
    = (inr (Some add_reply), jsonrpc.ERRORS_loaded)
  ∧ jsonrpc.unmarshall_response json.dumps json.loads add_reply
    = inr (json_image <$> result_response (VInt 0) (VInt 5), VInt 5).
Proof.
  destruct (response_round_trip json.dumps json.loads
              (Some {[ "id" := VInt 0 ]}) (VInt 5) jsonrpc.ERRORS_loaded
              add_reply) as (Hthere & Hback & _).
  - right. exists (VInt 0). vm_compute. reflexivity.
  - vm_compute. reflexivity.
  - vm_compute. reflexivity.
  - split; [exact Hthere|exact Hback].
Defined.

(** [InternalError('boom')] comes back with its text as [unicode]. *)
Lemma error_response_round_trip_witness :
  jsonrpc.marshall_response json.dumps json.loads (Some {[ "id" := VInt 0 ]})
    VNone (Some boom) jsonrpc.ERRORS_loaded
    = (inr (Some fail_reply),
       <[4 := error_object internal_error boom]> jsonrpc.ERRORS_loaded)
  ∧ jsonrpc.unmarshall_response json.dumps json.loads fail_reply
    = inl (Exn InternalError [VUnicode "Internal error: [u'boom']"]).
Proof.
  destruct (error_response_round_trip json.dumps json.loads
              (Some {[ "id" := VInt 0 ]}) VNone boom jsonrpc.ERRORS_loaded 4
              internal_error fail_reply) as [Hthere Hback].
  - right. exists (VInt 0). vm_compute. reflexivity.
  - exact table_intact_loaded.
  - vm_compute. reflexivity.
  - vm_compute. reflexivity.
  - vm_compute. reflexivity.
  - vm_compute. reflexivity.
  - split; [exact Hthere|]. rewrite Hback. vm_compute. reflexivity.
Defined.

Lemma handle_answers_malformed_bytes_witness :
  let exc := Exn ParseError [VStr "No JSON object could be decoded"] in
  let b :=
    written (VDict KStr (error_response VNone
                      (VDict KStr (error_object parse_error exc)))) in
  rpc.handle demo_server (inr "{") jsonrpc.ERRORS_loaded
    = (rpc.Sent b, <[0 := error_object parse_error exc]> jsonrpc.ERRORS_loaded)
  ∧ (<[0 := error_object parse_error exc]> jsonrpc.ERRORS_loaded) !! 0
    ≫= (.!! "data")
    = Some (VTuple [VStr "No JSON object could be decoded"]).
Proof.
  apply (handle_answers_malformed_bytes json.dumps json.loads
           (rpc.dispatcher demo_server) "{"
           (Exn ValueError [VStr "No JSON object could be decoded"])
           "No JSON object could be decoded" 0 parse_error).
  - vm_compute. reflexivity.
  - vm_compute. reflexivity.
  - vm_compute. reflexivity.
  - vm_compute. reflexivity.
  - vm_compute. reflexivity.
  - vm_compute. reflexivity.
  - intros H. vm_compute in H. discriminate H.
Defined.

Lemma handle_serves_call_witness :
  rpc.handle demo_server (inr add_request) jsonrpc.ERRORS_loaded
  = (rpc.Sent add_reply, jsonrpc.ERRORS_loaded).
Proof.
  apply (handle_serves_call json.dumps json.loads (rpc.dispatcher demo_server)
           add_request
           (json_image <$> jsonrpc.request_members "add" [VInt 2; VInt 3] ∅)
           "add" demo_add (VList [VInt 2; VInt 3]) [VInt 2; VInt 3] ∅
           (VInt 0) (VInt 5)).
  - vm_compute. reflexivity.
  - vm_compute. reflexivity.
  - reflexivity.
  - reflexivity.
  - reflexivity.
  - reflexivity.
  - vm_compute. reflexivity.
  - vm_compute. reflexivity.
  - intros H. vm_compute in H. discriminate H.
Defined.

Lemma handle_never_answers_notification_witness :
  rpc.handle demo_server (inr (written (VDict KUnicode notify_add)))
    jsonrpc.ERRORS_loaded = (rpc.Silent, jsonrpc.ERRORS_loaded)
  ∨ ∃ e, rpc.handle demo_server (inr (written (VDict KUnicode notify_add)))
           jsonrpc.ERRORS_loaded = (rpc.Aborted e, jsonrpc.ERRORS_loaded)
         ∧ isinstance e Error = false
         ∧ rpc.call_dispatch (rpc.dispatcher demo_server) "add"
             (VList [VInt 2; VInt 3]) ∅ = inl e.
Proof.
  apply (handle_never_answers_notification json.dumps json.loads
           (rpc.dispatcher demo_server) (written (VDict KUnicode notify_add))
           notify_add).
  - vm_compute. reflexivity.
  - vm_compute. reflexivity.
Defined.

Lemma handle_keeps_codes_and_messages_witness :
  let h' := (rpc.handle demo_server (inr "{") jsonrpc.ERRORS_loaded).2 in
  table_intact h'
  ∧ ∃ members z,
      h' !! 0 = Some members
      ∧ members !! "code" = Some (VInt z)
      ∧ jsonrpc.EXCEPTIONS !! z = Some ParseError
      ∧ members !! "message" = Some (VStr (table_message ParseError)).
Proof.
  apply (handle_keeps_codes_and_messages json.dumps json.loads
           (rpc.dispatcher demo_server) (inr "{") jsonrpc.ERRORS_loaded
           ParseError 0).
  - exact table_intact_loaded.
  - vm_compute. reflexivity.
Defined.

(** [proxy.add(2, method=3)] and [proxy.add(2, y=3)] *)
Lemma proxy_refuses_before_sending_witness :
  (∃ e, client.FunctionProxy_call
          (jsonrpc.JSONRPCProtocol json.dumps json.loads)
          (in_process demo_server) "add" [VInt 2] {[ "method" := VInt 3 ]}
          jsonrpc.ERRORS_loaded = (inl e, jsonrpc.ERRORS_loaded)
        ∧ exn_type e = TypeError)
  ∧ client.FunctionProxy_call (jsonrpc.JSONRPCProtocol json.dumps json.loads)
      (in_process demo_server) "add" [VInt 2] {[ "y" := VInt 3 ]}
      jsonrpc.ERRORS_loaded
    = (raise ProtocolError "Cannot use both positional and keyword arguments",
       jsonrpc.ERRORS_loaded).
Proof.
  split.
  - apply (proxy_refuses_before_sending json.dumps json.loads
             (in_process demo_server) "add" [VInt 2] {[ "method" := VInt 3 ]}).
    do 2 apply Exists_cons_tl. constructor. exists (VInt 3).
    vm_compute. reflexivity.
  - apply (proxy_refuses_before_sending json.dumps json.loads
             (in_process demo_server) "add" [VInt 2] {[ "y" := VInt 3 ]}).
    + repeat constructor; vm_compute; reflexivity.
    + intros H. discriminate H.
    + intros H. apply (f_equal (.!! "y")) in H. vm_compute in H.
      discriminate H.
Defined.


